(** * Field-presence analysis of IB FLEX XML reports

    A shallow embedding of [scripts/analyze_field_presence.py] and the
    properties of its three stages: the regex extractor, the aggregator
    and the categoriser, together with the per-type report of [main].

    Conventions of the embedding:
    - a Python [str] is a [string]; a character is the code point
      U+0000..U+00FF it denotes, so the classes [\s], [\w] and
      [str.isspace] are the ones CPython uses on that range;
    - a Python [dict] is an association list in insertion order with
      pairwise distinct keys; assignment to an existing key keeps its
      position;
    - a Python [int] is a [Z]; a Python [float] is an IEEE 754 binary64
      value, a [spec_float] with [prec = 53] and [emax = 1024];
    - a Python [set] of strings is the list of its members in insertion
      order; the order in which CPython iterates over it depends on the
      hash seed of the process and is a parameter, [set_iter];
    - an exception is [None] in the [option] monad;
    - the requested tag name is put into the pattern of the extractor
      unescaped; the pattern of the embedding is the one compiled for a
      name free of regex syntax ([plain_name]), and what is proved of
      the way a name is matched is proved for such names. *)

From Stdlib Require Import List Bool Arith ZArith Lia.
From Stdlib Require Import Ascii String DecimalString.
From Stdlib Require Import Permutation Sorted.
From Stdlib Require OrderedTypeEx.
From Stdlib Require Import Floats.SpecFloat.
Import ListNotations.

Local Open Scope string_scope.
Local Open Scope list_scope.

(** ** Characters and strings *)

Definition code (c : ascii) : N := N_of_ascii c.

Definition dquote : ascii := ascii_of_nat 34.

(** [str.isspace] and the regex class [\s] on U+0000..U+00FF. *)
Definition is_space (c : ascii) : bool :=
  let n := code c in
  ((9 <=? n) && (n <=? 13) || (28 <=? n) && (n <=? 32)
   || (n =? 133) || (n =? 160))%N.

(** The regex class [\w] on U+0000..U+00FF: alphanumeric or underscore. *)
Definition is_word (c : ascii) : bool :=
  let n := code c in
  ((48 <=? n) && (n <=? 57) || (65 <=? n) && (n <=? 90) || (n =? 95)
   || (97 <=? n) && (n <=? 122)
   || (n =? 170) || (n =? 178) || (n =? 179) || (n =? 181)
   || (n =? 185) || (n =? 186) || (188 <=? n) && (n <=? 190)
   || (192 <=? n) && (n <=? 214) || (216 <=? n) && (n <=? 246)
   || (248 <=? n) && (n <=? 255))%N.

Fixpoint str_all (p : ascii -> bool) (s : string) : bool :=
  match s with
  | EmptyString => true
  | String c s' => p c && str_all p s'
  end.

(** [s.lstrip()], [s.rstrip()] and [s.strip()] without argument. *)
Fixpoint lstrip (s : string) : string :=
  match s with
  | EmptyString => EmptyString
  | String c s' => if is_space c then lstrip s' else s
  end.

Fixpoint rstrip (s : string) : string :=
  match s with
  | EmptyString => EmptyString
  | String c s' => if str_all is_space s then EmptyString else String c (rstrip s')
  end.

Definition strip (s : string) : string := rstrip (lstrip s).

(** Truth value of a string: non-empty. *)
Definition truthy (s : string) : bool :=
  match s with EmptyString => false | String _ _ => true end.

(** The slice [s[:n]]. *)
Definition slice_to (n : nat) (s : string) : string := substring 0 n s.

(** ** Dictionaries in insertion order *)

Definition dict (V : Type) : Type := list (string * V).

Section Dict.
Context {V : Type}.

Fixpoint dict_get (k : string) (d : dict V) : option V :=
  match d with
  | [] => None
  | (k', v) :: d' => if String.eqb k k' then Some v else dict_get k d'
  end.

(** [d[k] = v]: replaces the value in place, or appends a new entry. *)
Fixpoint dict_set (k : string) (v : V) (d : dict V) : dict V :=
  match d with
  | [] => [(k, v)]
  | (k', v') :: d' =>
      if String.eqb k k' then (k', v) :: d' else (k', v') :: dict_set k v d'
  end.

Definition dict_has (k : string) (d : dict V) : bool :=
  match dict_get k d with Some _ => true | None => false end.

Definition keys (d : dict V) : list string := map fst d.

(** The invariant of a Python dictionary: no key occurs twice. *)
Definition dict_wf (d : dict V) : Prop := NoDup (keys d).
End Dict.

(** ** A backtracking matcher for the two patterns of the extractor

    The constructs are those the patterns use: literal characters,
    a character class repeated at least [min] times, greedily or lazily,
    sequencing and capturing groups (never nested, never repeated).
    Alternatives are tried in the order of [re]'s backtracking engine and
    the first success is kept. *)

Inductive regex : Type :=
| Eps
| Chr (c : ascii)
| Rep (greedy : bool) (min : nat) (cls : ascii -> bool)
| Seq (r1 r2 : regex)
| Grp (r : regex).

Fixpoint lit (s : string) : regex :=
  match s with
  | EmptyString => Eps
  | String c s' => Seq (Chr c) (lit s')
  end.

Section Matcher.
Context {A : Type}.

(** A continuation receives the text just consumed and the rest. *)
Fixpoint rep_greedy (cls : ascii -> bool) (min : nat) (s : string)
         (k : string -> string -> option A) : option A :=
  let stop := if (min =? 0)%nat then k EmptyString s else None in
  match s with
  | String c s' =>
      if cls c then
        match rep_greedy cls (pred min) s'
                         (fun taken rest => k (String c taken) rest) with
        | Some r => Some r
        | None => stop
        end
      else stop
  | EmptyString => stop
  end.

Fixpoint rep_lazy (cls : ascii -> bool) (min : nat) (s : string)
         (k : string -> string -> option A) : option A :=
  match (if (min =? 0)%nat then k EmptyString s else None) with
  | Some r => Some r
  | None =>
      match s with
      | String c s' =>
          if cls c then
            rep_lazy cls (pred min) s'
                     (fun taken rest => k (String c taken) rest)
          else None
      | EmptyString => None
      end
  end.

Fixpoint run (r : regex) (s : string) (caps : list string)
         (k : string -> string -> list string -> option A) : option A :=
  match r with
  | Eps => k EmptyString s caps
  | Chr c =>
      match s with
      | String c' s' =>
          if Ascii.eqb c c' then k (String c' EmptyString) s' caps else None
      | EmptyString => None
      end
  | Rep g min cls =>
      (if g then rep_greedy else rep_lazy) cls min s
        (fun taken rest => k taken rest caps)
  | Seq r1 r2 =>
      run r1 s caps (fun t1 s1 caps1 =>
        run r2 s1 caps1 (fun t2 s2 caps2 => k (t1 ++ t2)%string s2 caps2))
  | Grp r1 =>
      run r1 s caps (fun t rest caps1 => k t rest (caps1 ++ [t]))
  end.
End Matcher.

(** A match object: where it starts, the text matched, the groups. *)
Record Match : Type := mkMatch {
  m_start : nat;
  m_text : string;
  m_groups : list string
}.

(** [m.group(i)] for [i >= 1]. *)
Definition group (m : Match) (i : nat) : string :=
  nth (pred i) (m_groups m) EmptyString.

(** [re.match] anchored at the head of [s]. *)
Definition match_at (r : regex) (s : string) : option (string * list string) :=
  run r s [] (fun t _ caps => Some (t, caps)).

(** The left-to-right scan of [re.finditer]: after a match the search
    resumes where the match ended ([skip] counts the characters still
    covered by it); without a match it moves one character on. *)
Fixpoint scan (r : regex) (pos skip : nat) (s : string) {struct s} : list Match :=
  match skip with
  | S n =>
      match s with
      | String _ s' => scan r (S pos) n s'
      | EmptyString => []
      end
  | O =>
      match match_at r s with
      | Some (t, caps) =>
          mkMatch pos t caps ::
          match s with
          | String _ s' => scan r (S pos) (pred (String.length t)) s'
          | EmptyString => []
          end
      | None =>
          match s with
          | String _ s' => scan r (S pos) 0 s'
          | EmptyString => []
          end
      end
  end.

Definition finditer (r : regex) (s : string) : list Match := scan r 0 0 s.

(** [re.findall] for a pattern with exactly one group. *)
Definition findall (r : regex) (s : string) : list string :=
  map (fun m => group m 1) (finditer r s).

(** ** The extractor *)

(** Characters with a meaning of their own in a pattern; a tag name is
    interpolated into the pattern unescaped, so the embedding covers the
    names free of them. *)
Definition regex_special (c : ascii) : bool :=
  existsb (Ascii.eqb c)
          (list_ascii_of_string ".^$*+?{}[]\|()").

Definition plain_name (s : string) : bool :=
  str_all (fun c => negb (regex_special c)) s.

(** The pattern of [extract_elements]: the character [<], the tag name,
    one or more [\s], a group holding a lazy run of characters other
    than [>], any number of [\s], and the two characters [/] and [>]. *)
Definition element_pattern (element_name : string) : regex :=
  Seq (Chr "<")
   (Seq (lit element_name)
    (Seq (Rep true 1 is_space)
     (Seq (Grp (Rep false 0 (fun c => negb (Ascii.eqb c ">"))))
      (Seq (Rep true 0 is_space)
       (lit "/>"))))).

(** The pattern of an attribute: a group of one or more [\w], the equals
    sign, a quotation mark, a group of any number of characters other
    than the quotation mark, and a quotation mark. *)
Definition attr_pattern : regex :=
  Seq (Grp (Rep true 1 is_word))
   (Seq (Chr "=")
    (Seq (Chr dquote)
     (Seq (Grp (Rep true 0 (fun c => negb (Ascii.eqb c dquote))))
      (Chr dquote)))).

(** The inner loop: [attrs[m.group(1)] = m.group(2)] for each match. *)
Definition parse_attrs (text : string) : dict string :=
  fold_left (fun attrs am => dict_set (group am 1) (group am 2) attrs)
            (finditer attr_pattern text) [].

Definition extract_elements (xml_content element_name : string)
  : list (dict string) :=
  let matches := findall (element_pattern element_name) xml_content in
  map parse_attrs matches.

(** Documents in the examples are written with ['] for the quotation
    mark. *)
Fixpoint dq (s : string) : string :=
  match s with
  | EmptyString => EmptyString
  | String c s' => String (if Ascii.eqb c "'" then dquote else c) (dq s')
  end.

Definition scenario_doc : string :=
  dq "<Trade id='1' qty='10' /><Trade id='2' qty='' /><Trade id='3' />".

(** ** Numbers *)

Definition prec : Z := 53.
Definition emax : Z := 1024.

(** A Python number as the script produces them: an [int] or a [float]. *)
Inductive pynum : Type :=
| PyInt (z : Z)
| PyFloat (f : spec_float).

(** An integer as an unrounded binary number, for the division below. *)
Definition exact_int (z : Z) : spec_float :=
  match z with
  | Z0 => S754_zero false
  | Zpos p => S754_finite false p 0
  | Zneg p => S754_finite true p 0
  end.

(** [a / b] on two [int]s: the quotient rounded once to the nearest
    binary64 value, or [ZeroDivisionError]. *)
Definition int_truediv (a b : Z) : option spec_float :=
  if (b =? 0)%Z then None
  else Some (SFdiv prec emax (exact_int a) (exact_int b)).

(** [float(z)], exact for the small constants of the script. *)
Definition float_of_int (z : Z) : spec_float :=
  binary_normalize prec emax z 0 false.

(** [x * z] for a [float] [x] and an [int] [z]. *)
Definition float_mul_int (x : spec_float) (z : Z) : spec_float :=
  SFmul prec emax x (float_of_int z).

(** The literal [99.9]: the binary64 value nearest to 999/10. *)
Definition lit_99_9 : spec_float :=
  S754_finite false 7029837543348634 (-46).

(** The value of a number: a NaN, an infinity, or [m * 2 ^ e]. *)
Inductive xnum : Type :=
| XNan
| XInf (negative : bool)
| XFin (m e : Z).

Definition xnum_of (x : pynum) : xnum :=
  match x with
  | PyInt z => XFin z 0
  | PyFloat S754_nan => XNan
  | PyFloat (S754_infinity s) => XInf s
  | PyFloat (S754_zero _) => XFin 0 0
  | PyFloat (S754_finite s m e) => XFin (cond_Zopp s (Zpos m)) e
  end.

(** Python compares two numbers by their values, also an [int] with a
    [float]; a comparison with a NaN is undecided. *)
Definition xcompare (a b : xnum) : option comparison :=
  match a, b with
  | XNan, _ | _, XNan => None
  | XInf s1, XInf s2 =>
      Some (match s1, s2 with
            | true, false => Lt
            | false, true => Gt
            | _, _ => Eq
            end)
  | XInf s, XFin _ _ => Some (if s then Lt else Gt)
  | XFin _ _, XInf s => Some (if s then Gt else Lt)
  | XFin m1 e1, XFin m2 e2 =>
      Some (if (e1 <=? e2)%Z then (m1 ?= m2 * 2 ^ (e2 - e1))%Z
            else (m1 * 2 ^ (e1 - e2) ?= m2)%Z)
  end.

(** [a >= b]. *)
Definition py_ge (a b : pynum) : bool :=
  match xcompare (xnum_of a) (xnum_of b) with
  | Some (Gt | Eq) => true
  | _ => false
  end.

(** [a < b]. *)
Definition py_lt (a b : pynum) : bool :=
  match xcompare (xnum_of a) (xnum_of b) with
  | Some Lt => true
  | _ => false
  end.

(** ** The aggregator *)

(** The value of [field_stats[field]]. *)
Record field_stat : Type := mkStat {
  st_present : Z;
  st_non_empty : Z;
  st_sample_values : list string
}.

(** The value of [results[field]]. *)
Record field_result : Type := mkResult {
  present : Z;
  present_pct : pynum;
  non_empty : Z;
  non_empty_pct : pynum;
  samples : list string
}.

Definition bind {A B : Type} (x : option A) (f : A -> option B) : option B :=
  match x with Some a => f a | None => None end.

Notation "x <- e ;; k" := (bind e (fun x => k))
  (at level 61, e at next level, right associativity).

(** [s.add(x)] on a set kept in insertion order. *)
Definition set_add (x : string) (s : list string) : list string :=
  if existsb (String.eqb x) s then s else s ++ [x].

(** The factory of the [defaultdict]. *)
Definition default_stat : field_stat := mkStat 0 0 [].

(** [field_stats[field]]: a missing key reads as the default. *)
Definition dd_get (field : string) (fs : dict field_stat) : field_stat :=
  match dict_get field fs with Some st => st | None => default_stat end.

(** An in-place update of [field_stats[field]]; a missing key is first
    inserted with the default. *)
Definition dd_update (field : string) (f : field_stat -> field_stat)
           (fs : dict field_stat) : dict field_stat :=
  dict_set field (f (dd_get field fs)) fs.

(** The body of the inner loop of [analyze_fields]. *)
Definition count_field (fs : dict field_stat) (item : string * string)
  : dict field_stat :=
  let (field, value) := item in
  let fs1 :=
    dd_update field
      (fun st => mkStat (st_present st + 1) (st_non_empty st)
                        (st_sample_values st)) fs in
  if truthy value && truthy (strip value) then
    let fs2 :=
      dd_update field
        (fun st => mkStat (st_present st) (st_non_empty st + 1)
                          (st_sample_values st)) fs1 in
    if (List.length (st_sample_values (dd_get field fs2)) <? 5)%nat then
      dd_update field
        (fun st => mkStat (st_present st) (st_non_empty st)
                          (set_add (slice_to 50 value) (st_sample_values st)))
        fs2
    else fs2
  else fs1.

Definition count_element (fs : dict field_stat) (elem : dict string)
  : dict field_stat :=
  fold_left count_field elem fs.

(** The first loop of [analyze_fields]. *)
Definition tally (elements : list (dict string)) : dict field_stat :=
  fold_left count_element elements [].

Section Aggregator.
(** The order in which a set is iterated, given its insertion order. *)
Variable set_iter : list string -> list string.

(** The body of the second loop of [analyze_fields]. *)
Definition percentage_step (total : Z) (acc : option (dict field_result))
           (item : string * field_stat) : option (dict field_result) :=
  let (field, stats) := item in
  results <- acc ;;
  q_present <- int_truediv (st_present stats) total ;;
  let pct_present := PyFloat (float_mul_int q_present 100) in
  pct_non_empty <-
    (if (st_present stats >? 0)%Z then
       q_non_empty <- int_truediv (st_non_empty stats) total ;;
       Some (PyFloat (float_mul_int q_non_empty 100))
     else Some (PyInt 0)) ;;
  Some (dict_set field
          (mkResult (st_present stats) pct_present
                    (st_non_empty stats) pct_non_empty
                    (firstn 3 (set_iter (st_sample_values stats))))
          results).

Definition analyze_fields (elements : list (dict string))
  : option (dict field_result) :=
  let total := Z.of_nat (List.length elements) in
  if (total =? 0)%Z then Some []
  else fold_left (percentage_step total) (tally elements) (Some []).
End Aggregator.

(** ** The categoriser *)

(** [sorted] on the items of a dictionary: the keys are distinct, so the
    order of two items is the order of their keys. *)
Fixpoint insert_item {V : Type} (x : string * V) (l : list (string * V))
  : list (string * V) :=
  match l with
  | [] => [x]
  | y :: l' =>
      if String.ltb (fst y) (fst x) then y :: insert_item x l' else x :: l
  end.

Fixpoint sorted {V : Type} (l : list (string * V)) : list (string * V) :=
  match l with
  | [] => []
  | x :: l' => insert_item x (sorted l')
  end.

Definition bucket : Type := list (string * field_result).

Definition categorize_step (acc : bucket * bucket * bucket)
           (item : string * field_result) : bucket * bucket * bucket :=
  let '(always, sometimes, rarely) := acc in
  let pct := non_empty_pct (snd item) in
  if py_ge pct (PyFloat lit_99_9) then (always ++ [item], sometimes, rarely)
  else if py_ge pct (PyInt 50) then (always, sometimes ++ [item], rarely)
  else (always, sometimes, rarely ++ [item]).

Definition categorize_fields (results : dict field_result) (total : Z)
  : bucket * bucket * bucket :=
  fold_left categorize_step (sorted results) ([], [], []).

(** ** The report *)

Section Reporting.
Local Open Scope string_scope.

(** [c * n] for a one-character string [c]. *)
Fixpoint repeat_char (c : ascii) (n : nat) : string :=
  match n with
  | O => EmptyString
  | S n' => String c (repeat_char c n')
  end.

Definition newline : string := String (ascii_of_nat 10) EmptyString.

(** [str(z)] for an [int]. *)
Definition str_of_int (z : Z) : string :=
  NilZero.string_of_int (Z.to_int z).

(** The format [{s:40}]: the string padded on the right. *)
Definition ljust (width : nat) (s : string) : string :=
  s ++ repeat_char " " (width - String.length s).

(** The padding of a formatted number: on the left. *)
Definition rjust (width : nat) (s : string) : string :=
  repeat_char " " (width - String.length s) ++ s.

(** [n / d] rounded to the nearest integer, ties to even. *)
Definition div_half_even (n d : Z) : Z :=
  let q := (n / d)%Z in
  match (2 * (n mod d) ?= d)%Z with
  | Lt => q
  | Gt => (q + 1)%Z
  | Eq => if Z.even q then q else (q + 1)%Z
  end.

(** The number of tenths nearest to [m * 2 ^ e]. *)
Definition tenths (m : positive) (e : Z) : Z :=
  if (0 <=? e)%Z then (Zpos m * 2 ^ e * 10)%Z
  else div_half_even (Zpos m * 10) (2 ^ (- e)).

Definition sign_str (s : bool) : string := if s then "-" else "".

(** The format [.1f] of a [float]. *)
Definition fixed1 (x : spec_float) : string :=
  match x with
  | S754_nan => "nan"
  | S754_infinity s => sign_str s ++ "inf"
  | S754_zero s => sign_str s ++ "0.0"
  | S754_finite s m e =>
      let t := tenths m e in
      sign_str s ++ str_of_int (t / 10) ++ "." ++ str_of_int (t mod 10)
  end.

(** The format [{x:5.1f}]; an [int] is converted to a [float] first. *)
Definition format_5_1f (x : pynum) : string :=
  rjust 5 (fixed1 (match x with
                   | PyFloat f => f
                   | PyInt z => float_of_int z
                   end)).

Definition quoted (s : string) : string :=
  String dquote s ++ String dquote EmptyString.

(** [print_category]: the strings passed to [print], in order. *)
Definition print_category (name : string) (fields : bucket) (total : Z)
  : list string :=
  List.app
    [ newline ++ repeat_char "=" 60;
      name ++ " (" ++ str_of_int (Z.of_nat (List.length fields)) ++ " fields)";
      repeat_char "=" 60 ]
    (map (fun item : string * field_result =>
            let (field, stats) := item in
            let samples :=
              concat ", " (map quoted (firstn 2 (samples stats))) in
            "  " ++ ljust 40 field ++ " "
                 ++ format_5_1f (non_empty_pct stats) ++ "%  ("
                 ++ str_of_int (non_empty stats) ++ "/"
                 ++ str_of_int total ++ ")  " ++ samples)
         fields).

Definition element_types : list string :=
  ["Trade"; "OpenPosition"; "CashTransaction"; "CorporateAction"].

Definition type_header (elem_type : string) : list string :=
  [ newline ++ newline ++ repeat_char "#" 60;
    "# " ++ elem_type;
    repeat_char "#" 60 ].

Definition found_line (total : Z) (elem_type : string) : string :=
  "Found " ++ str_of_int total ++ " " ++ elem_type ++ " elements".

Variable set_iter : list string -> list string.

(** One iteration of the loop of [main]: what it prints, and whether
    it ran to its end ([Some tt]) or raised ([None]). *)
Definition report_type (xml_content elem_type : string)
  : list string * option unit :=
  let elements := extract_elements xml_content elem_type in
  let total := Z.of_nat (List.length elements) in
  let printed :=
    List.app (type_header elem_type) [found_line total elem_type] in
  if (total =? 0)%Z then (printed, Some tt)
  else
    match analyze_fields set_iter elements with
    | None => (printed, None)
    | Some results =>
        let '(always, sometimes, rarely) := categorize_fields results total in
        ((printed
           ++ print_category
                "ALWAYS PRESENT (>=99.9% non-empty) - Can be non-optional"
                always total
           ++ print_category
                "SOMETIMES PRESENT (50-99%) - Conditional or truly optional"
                sometimes total
           ++ print_category
                "RARELY PRESENT (<50%) - Truly optional"
                rarely total)%list,
         Some tt)
    end.

(** The loop of [main] over the element types, after the file is read. *)
Fixpoint report_types (xml_content : string) (types : list string)
  : list string * option unit :=
  match types with
  | nil => (nil, Some tt)
  | t :: rest =>
      match report_type xml_content t with
      | (out, None) => (out, None)
      | (out, Some _) =>
          let (out', status) := report_types xml_content rest in
          ((out ++ out')%list, status)
      end
  end.

Definition main (path xml_content : string) : list string * option unit :=
  let (out, status) := report_types xml_content element_types in
  (("Reading " ++ path ++ "...") :: out, status).
End Reporting.

(** ** Vocabulary of the properties *)

(** *** Documents made of self-closing elements

    A self-closing element is the character [<], a tag name, the text up
    to the end of the tag and the two characters [/] and [>]; the text
    in between holds the attributes and the white space around them. *)

Record element : Type := mkElement {
  el_name : string;
  el_rest : string
}.

Inductive segment : Type :=
| Text (s : string)
| Elem (e : element).

Section Documents.
Local Open Scope string_scope.

Definition render_element (e : element) : string :=
  "<" ++ el_name e ++ el_rest e ++ "/>".

Definition render_segment (g : segment) : string :=
  match g with
  | Text s => s
  | Elem e => render_element e
  end.

Fixpoint render (doc : list segment) : string :=
  match doc with
  | nil => EmptyString
  | g :: doc' => render_segment g ++ render doc'
  end.
End Documents.

Definition elements_of (doc : list segment) : list element :=
  flat_map (fun g => match g with Elem e => [e] | Text _ => [] end) doc.

Definition named (name : string) (e : element) : bool :=
  String.eqb (el_name e) name.

(** The number of self-closing tags of a name in a document. *)
Definition count_tags (name : string) (doc : list segment) : nat :=
  List.length (filter (named name) (elements_of doc)).

Definition not_lt (c : ascii) : bool := negb (Ascii.eqb c "<").
Definition not_gt (c : ascii) : bool := negb (Ascii.eqb c ">").

(** A tag name holds neither white space nor [<]. *)
Definition tag_name (s : string) : bool :=
  str_all (fun c => negb (is_space c) && not_lt c) s.

Definition starts_with_space (s : string) : bool :=
  match s with
  | String c _ => is_space c
  | EmptyString => false
  end.

(** A self-closing element in the sense of XML: after the name comes
    nothing, or white space and attributes; no [<] inside the tag. *)
Definition self_closing (e : element) : bool :=
  tag_name (el_name e)
  && (negb (truthy (el_rest e)) || starts_with_space (el_rest e))
  && str_all not_lt (el_rest e).

(** The elements the pattern is written for: white space follows the
    name, and no [>] occurs before the end of the tag. *)
Definition spaced (e : element) : bool :=
  tag_name (el_name e)
  && starts_with_space (el_rest e)
  && str_all (fun c => not_lt c && not_gt c) (el_rest e).

Definition self_closing_segment (g : segment) : bool :=
  match g with
  | Text s => str_all not_lt s
  | Elem e => self_closing e
  end.

Definition spaced_segment (g : segment) : bool :=
  match g with
  | Text s => str_all not_lt s
  | Elem e => spaced e
  end.

(** The characters of [s] from offset [n] on: the slice [s[n:]]. *)
Fixpoint slice_from (n : nat) (s : string) : string :=
  match n, s with
  | O, _ => s
  | S n', String _ s' => slice_from n' s'
  | S _, EmptyString => EmptyString
  end.

(** *** Occurrences of an attribute *)

(** A value that is non-empty once stripped. *)
Definition non_empty_value (v : string) : bool := truthy (strip v).

Definition has_non_empty (field : string) (d : dict string) : bool :=
  match dict_get field d with
  | Some v => non_empty_value v
  | None => false
  end.

(** In how many occurrences the attribute is present, and in how many it
    has a non-empty value. *)
Definition occ_present (field : string) (elements : list (dict string)) : nat :=
  List.length (filter (dict_has field) elements).

Definition occ_non_empty (field : string) (elements : list (dict string)) : nat :=
  List.length (filter (has_non_empty field) elements).

(** [n / total * 100] in binary64 arithmetic. *)
Definition percent (n total : Z) : spec_float :=
  float_mul_int (SFdiv prec emax (exact_int n) (exact_int total)) 100.

(** The non-empty values of the attribute, truncated, as encountered. *)
Definition truncated_values (field : string) (elements : list (dict string))
  : list string :=
  flat_map (fun d => match dict_get field d with
                     | Some v => if non_empty_value v then [slice_to 50 v] else []
                     | None => []
                     end) elements.

(** The distinct members of a list in the order of their first
    occurrence. *)
Definition first_seen (l : list string) : list string :=
  fold_left (fun seen v => set_add v seen) l [].

(** The values the aggregator collects for an attribute: the first five
    distinct truncated non-empty values. *)
Definition collected (field : string) (elements : list (dict string))
  : list string :=
  firstn 5 (first_seen (truncated_values field elements)).

(** *** Buckets *)

Definition in_always (st : field_result) : bool :=
  py_ge (non_empty_pct st) (PyFloat lit_99_9).

Definition in_sometimes (st : field_result) : bool :=
  py_ge (non_empty_pct st) (PyInt 50) && py_lt (non_empty_pct st) (PyFloat lit_99_9).

Definition in_rarely (st : field_result) : bool :=
  py_lt (non_empty_pct st) (PyInt 50).

(** Ascending order of the names of a list of items. *)
Definition name_lt {V : Type} (a b : string * V) : Prop :=
  String.ltb (fst a) (fst b) = true.

(** A set iteration order lists the members of the set, each once. *)
Definition iteration_order (set_iter : list string -> list string) : Prop :=
  forall l, Permutation (set_iter l) l.

(** *** The aggregator, one attribute at a time *)

(** The test of the inner loop: [value and value.strip()]. *)
Definition non_blank (value : string) : bool :=
  truthy value && truthy (strip value).

(** What one item does to the statistic of its attribute. *)
Definition bump (value : string) (st : field_stat) : field_stat :=
  if non_blank value then
    mkStat (st_present st + 1) (st_non_empty st + 1)
           (if (List.length (st_sample_values st) <? 5)%nat
            then set_add (slice_to 50 value) (st_sample_values st)
            else st_sample_values st)
  else mkStat (st_present st + 1) (st_non_empty st) (st_sample_values st).

(** The values an attribute takes in a list of items. *)
Definition values_for (field : string) (items : list (string * string))
  : list string :=
  map snd (filter (fun it => String.eqb (fst it) field) items).

(** The guarded insertion of the samples, over a list of values. *)
Definition collect (values seen : list string) : list string :=
  fold_left (fun s v => if (List.length s <? 5)%nat then set_add v s else s)
            values seen.

(** The entry of [results] computed from a statistic. *)
Definition finalize (set_iter : list string -> list string) (total : Z)
           (st : field_stat) : field_result :=
  mkResult (st_present st)
           (PyFloat (percent (st_present st) total))
           (st_non_empty st)
           (if (st_present st >? 0)%Z
            then PyFloat (percent (st_non_empty st) total)
            else PyInt 0)
           (firstn 3 (set_iter (st_sample_values st))).

(** The last attribute of a name among the matches of the attribute
    pattern. *)
Definition last_attr (name : string) (matches : list Match) : option string :=
  option_map (fun am => group am 2)
             (find (fun am => String.eqb (group am 1) name) (rev matches)).

(** *** Numbers that compare *)

Definition is_nan (f : spec_float) : bool :=
  match f with S754_nan => true | _ => false end.

(** A number that is not a NaN: every comparison with it is decided. *)
Definition ordered_num (x : pynum) : bool :=
  match x with
  | PyInt _ => true
  | PyFloat f => negb (is_nan f)
  end.

Definition exactly_one (a b c : Prop) : Prop :=
  (a \/ b \/ c) /\ ~ (a /\ b) /\ ~ (a /\ c) /\ ~ (b /\ c).

(** *** Counting, and reading a result *)

(** The number of occurrences of a character in a string. *)
Fixpoint count_char (c : ascii) (s : string) : nat :=
  match s with
  | EmptyString => 0
  | String x s' => (if Ascii.eqb x c then 1 else 0) + count_char c s'
  end.

(** The counts of an attribute in a result, 0 when it has no entry. *)
Definition present_of (results : dict field_result) (field : string) : Z :=
  match dict_get field results with Some st => present st | None => 0%Z end.

Definition non_empty_of (results : dict field_result) (field : string) : Z :=
  match dict_get field results with Some st => non_empty st | None => 0%Z end.

(** *** Elements written with their attributes *)

Definition not_dquote (c : ascii) : bool := negb (Ascii.eqb c dquote).

(** An attribute the extractor can read back: a non-empty name of word
    characters and a value without quotation mark. *)
Definition attr_ok (kv : string * string) : bool :=
  truthy (fst kv) && str_all is_word (fst kv) && str_all not_dquote (snd kv).

Section Attributes.
Local Open Scope string_scope.

(** The text of one attribute: name, equals sign, quoted value. *)
Definition render_attr (kv : string * string) : string :=
  fst kv ++ "=" ++ String dquote (snd kv ++ String dquote "").

(** The attributes of a tag, each after one space. *)
Fixpoint render_attrs (attrs : list (string * string)) : string :=
  match attrs with
  | nil => ""
  | kv :: attrs' => " " ++ render_attr kv ++ render_attrs attrs'
  end.

(** The element with these attributes, a space before the end of the
    tag. *)
Definition attr_element (name : string) (attrs : list (string * string))
  : element :=
  mkElement name (render_attrs attrs ++ " ").
End Attributes.

(** An attribute as the script expects it in a tag: readable back, and
    with a value that holds neither [<] nor [>]. *)
Definition attr_written (kv : string * string) : bool :=
  attr_ok kv && str_all (fun c => not_lt c && not_gt c) (snd kv).

(** A document of elements written with their attributes, each followed
    by the same separating text. *)
Definition written_doc (sep : string)
           (items : list (string * list (string * string))) : list segment :=
  flat_map (fun it => [Elem (attr_element (fst it) (snd it)); Text sep]) items.

(** What the inner loop of the extractor makes of a list of pairs. *)
Definition dict_of (attrs : list (string * string)) : dict string :=
  fold_left (fun d kv => dict_set (fst kv) (snd kv) d) attrs [].

(** *** Requested names and whole documents *)

(** A name the extractor can be asked for: free of pattern syntax, of
    white space and of [>]. *)
Definition requestable (s : string) : bool :=
  plain_name s && str_all (fun c => negb (is_space c) && not_gt c) s.

(** A segment of a document of well-formed self-closing elements in
    which the elements of the requested name have white space after the
    name and no [>] before the end of the tag; the elements of another
    name are any self-closing elements. *)
Definition well_formed_for (name : string) (g : segment) : bool :=
  match g with
  | Text s => str_all not_lt s
  | Elem e =>
      self_closing e
      && (negb (named name e)
          || starts_with_space (el_rest e) && str_all not_gt (el_rest e))
  end.

(** No tag is left open: each [<] of the text is followed, later in the
    text, by a [>]. *)
Fixpoint tags_closed (s : string) : bool :=
  match s with
  | EmptyString => true
  | String c s' => (not_lt c || negb (str_all not_gt s')) && tags_closed s'
  end.

(** *** Leading and trailing white space *)

Fixpoint lead_space (s : string) : string :=
  match s with
  | EmptyString => EmptyString
  | String c s' => if is_space c then String c (lead_space s') else EmptyString
  end.

Fixpoint trail_space (s : string) : string :=
  match s with
  | EmptyString => EmptyString
  | String c s' => if str_all is_space s then s else trail_space s'
  end.

(** * Properties *)

(** ** Strings *)

Section StringFacts.
Local Open Scope string_scope.

Lemma str_app_assoc (a b c : string) : (a ++ b) ++ c = a ++ (b ++ c).
Proof. induction a as [|x a IH]; simpl; [reflexivity | now rewrite IH]. Qed.

Lemma str_app_nil_r (a : string) : a ++ "" = a.
Proof. induction a as [|x a IH]; simpl; [reflexivity | now rewrite IH]. Qed.

Lemma str_length_app (a b : string) :
  String.length (a ++ b) = (String.length a + String.length b)%nat.
Proof. induction a as [|x a IH]; simpl; [reflexivity | now rewrite IH]. Qed.

Lemma str_all_app (p : ascii -> bool) (a b : string) :
  str_all p (a ++ b) = str_all p a && str_all p b.
Proof.
  induction a as [|x a IH]; simpl; [reflexivity|].
  now rewrite IH, andb_assoc.
Qed.

Lemma str_all_impl (p q : ascii -> bool) (s : string) :
  (forall c, p c = true -> q c = true) ->
  str_all p s = true -> str_all q s = true.
Proof.
  intros Hpq. induction s as [|x s IH]; simpl; [reflexivity|].
  intros H. apply andb_true_iff in H as [Hx Hs].
  now rewrite (Hpq _ Hx), IH.
Qed.

Lemma lead_space_lstrip (s : string) : lead_space s ++ lstrip s = s.
Proof.
  induction s as [|x s IH]; simpl; [reflexivity|].
  destruct (is_space x); simpl; [now rewrite IH | reflexivity].
Qed.

Lemma lead_space_all (s : string) : str_all is_space (lead_space s) = true.
Proof.
  induction s as [|x s IH]; simpl; [reflexivity|].
  destruct (is_space x) eqn:E; simpl; [now rewrite E, IH | reflexivity].
Qed.

Lemma lstrip_no_space (s : string) : starts_with_space (lstrip s) = false.
Proof.
  induction s as [|x s IH]; simpl; [reflexivity|].
  destruct (is_space x) eqn:E; simpl; [exact IH | exact E].
Qed.

Lemma rstrip_trail_space (s : string) : rstrip s ++ trail_space s = s.
Proof.
  induction s as [|x s IH]; [reflexivity|].
  cbn [rstrip trail_space].
  destruct (str_all is_space (String x s)); simpl; [reflexivity | now rewrite IH].
Qed.

Lemma trail_space_all (s : string) : str_all is_space (trail_space s) = true.
Proof.
  induction s as [|x s IH]; [reflexivity|].
  cbn [trail_space].
  destruct (str_all is_space (String x s)) eqn:E; [exact E | exact IH].
Qed.

Lemma lstrip_app_space (w t : string) :
  str_all is_space w = true -> lstrip (w ++ t) = lstrip t.
Proof.
  induction w as [|x w IH]; simpl; [reflexivity|].
  intros H. apply andb_true_iff in H as [Hx Hw]. now rewrite Hx, IH.
Qed.

Lemma lead_space_app_space (w t : string) :
  str_all is_space w = true -> lead_space (w ++ t) = w ++ lead_space t.
Proof.
  induction w as [|x w IH]; simpl; [reflexivity|].
  intros H. apply andb_true_iff in H as [Hx Hw]. now rewrite Hx, IH.
Qed.

Lemma lstrip_fixed (s : string) : starts_with_space s = false -> lstrip s = s.
Proof. destruct s as [|x s]; simpl; [reflexivity|]. now intros ->. Qed.

Lemma lead_space_none (s : string) :
  starts_with_space s = false -> lead_space s = "".
Proof. destruct s as [|x s]; simpl; [reflexivity|]. now intros ->. Qed.

(** A string of white space strips to nothing, and conversely. *)
Lemma strip_blank (s : string) :
  truthy (strip s) = negb (str_all is_space s).
Proof.
  unfold strip. induction s as [|x s IH]; [reflexivity|].
  cbn [lstrip str_all]. destruct (is_space x) eqn:E; [exact IH|].
  cbn [rstrip str_all]. now rewrite E.
Qed.

End StringFacts.

(** ** The matcher on the two patterns *)

Section RegexFacts.
Local Open Scope string_scope.
Context {A : Type}.

Lemma run_lit (a s : string) (caps : list string)
      (k : string -> string -> list string -> option A) :
  run (lit a) (a ++ s) caps k = k a s caps.
Proof.
  revert k. induction a as [|x a IH]; intros k; simpl; [reflexivity|].
  rewrite Ascii.eqb_refl, IH. reflexivity.
Qed.

Lemma run_lit_inv (a s : string) (caps : list string)
      (k : string -> string -> list string -> option A) (r : A) :
  run (lit a) s caps k = Some r ->
  exists s', s = a ++ s' /\ k a s' caps = Some r.
Proof.
  revert s k. induction a as [|x a IH]; intros s k H; simpl in H.
  - exists s. split; [reflexivity | exact H].
  - destruct s as [|y s]; [discriminate|].
    destruct (Ascii.eqb x y) eqn:E; [|discriminate].
    apply Ascii.eqb_eq in E. subst y.
    apply IH in H as (s' & -> & H).
    exists s'. split; [reflexivity | exact H].
Qed.

Lemma rep_lazy_eq (cls : ascii -> bool) (min : nat) (s : string)
      (k : string -> string -> option A) :
  rep_lazy cls min s k =
  match (if (min =? 0)%nat then k "" s else None) with
  | Some r => Some r
  | None =>
      match s with
      | String c s' =>
          if cls c then
            rep_lazy cls (pred min) s' (fun taken rest => k (String c taken) rest)
          else None
      | EmptyString => None
      end
  end.
Proof. destruct s; reflexivity. Qed.

(** The greedy run takes all the leading members of the class when the
    continuation accepts that split. *)
Lemma rep_greedy_first (cls : ascii -> bool) (w t : string) (min : nat)
      (k : string -> string -> option A) (r : A) :
  str_all cls w = true ->
  match t with String c _ => cls c | EmptyString => false end = false ->
  (min <= String.length w)%nat ->
  k w t = Some r ->
  rep_greedy cls min (w ++ t) k = Some r.
Proof.
  revert min k. induction w as [|x w IH]; intros min k Hw Ht Hmin Hk.
  - simpl in Hmin. assert (min = 0%nat) as -> by lia.
    destruct t as [|c t]; simpl; [exact Hk|]. now rewrite Ht.
  - simpl in Hw. apply andb_true_iff in Hw as [Hx Hw].
    simpl. rewrite Hx.
    rewrite (IH (pred min) (fun taken rest => k (String x taken) rest) Hw Ht);
      [reflexivity | simpl in Hmin; lia | exact Hk].
Qed.

(** When the continuation rejects every rest that starts with white
    space, a greedy run of white space has a single split to offer. *)
Lemma rep_greedy_space0 (s : string) (k : string -> string -> option A) :
  (forall taken c rest, is_space c = true -> k taken (String c rest) = None) ->
  rep_greedy is_space 0 s k = k (lead_space s) (lstrip s).
Proof.
  revert k. induction s as [|c s IH]; intros k Hk; simpl; [reflexivity|].
  destruct (is_space c) eqn:E; [|reflexivity].
  rewrite IH by (intros; now apply Hk).
  destruct (k (String c (lead_space s)) (lstrip s)); [reflexivity|].
  now apply Hk.
Qed.

Lemma rep_greedy_min1 (cls : ascii -> bool) (s : string)
      (k : string -> string -> option A) (r : A) :
  rep_greedy cls 1 s k = Some r ->
  exists c s', s = String c s' /\ cls c = true.
Proof.
  destruct s as [|c s]; simpl; [discriminate|].
  destruct (cls c) eqn:E; [|discriminate].
  intros _. now exists c, s.
Qed.

Lemma space_not_slash (c : ascii) : is_space c = true -> Ascii.eqb "/" c = false.
Proof.
  intros H. destruct (Ascii.eqb "/" c) eqn:E; [|reflexivity].
  apply Ascii.eqb_eq in E. subst c. discriminate H.
Qed.

(** The end of the element pattern: white space, then the two closing
    characters. *)
Lemma run_tail (s : string) (caps : list string)
      (k : string -> string -> list string -> option A) :
  run (Seq (Rep true 0 is_space) (lit "/>")) s caps k =
  run (lit "/>") (lstrip s) caps
      (fun t2 s2 caps2 => k (lead_space s ++ t2) s2 caps2).
Proof.
  cbn [run]. rewrite rep_greedy_space0; [reflexivity|].
  intros taken c rest Hc. cbn [lit run]. now rewrite (space_not_slash c Hc).
Qed.

Lemma lit_close_fail (y rest : string) (caps : list string)
      (k : string -> string -> list string -> option A) :
  str_all is_space y = false ->
  str_all not_gt y = true ->
  run (lit "/>") (lstrip (y ++ "/>" ++ rest)) caps k = None.
Proof.
  induction y as [|c y IH]; intros Hs Hg; [discriminate|].
  simpl in Hs, Hg. apply andb_true_iff in Hg as [Hc Hg].
  cbn [append lstrip]. destruct (is_space c) eqn:E.
  - apply IH; [exact Hs | exact Hg].
  - cbn [lit run]. destruct (Ascii.eqb "/" c); [|reflexivity].
    destruct y as [|d y]; [reflexivity|].
    simpl in Hg. apply andb_true_iff in Hg as [Hd _].
    cbn [append]. unfold not_gt in Hd. rewrite Ascii.eqb_sym.
    now destruct (Ascii.eqb d ">").
Qed.

Lemma rstrip_blank (y : string) : str_all is_space y = true -> rstrip y = "".
Proof. destruct y as [|c y]; [reflexivity|]. cbn [rstrip]. now intros ->. Qed.

Lemma trail_space_blank (y : string) :
  str_all is_space y = true -> trail_space y = y.
Proof. destruct y as [|c y]; [reflexivity|]. cbn [trail_space]. now intros ->. Qed.

(** The lazy group stops at the first split after which only white
    space precedes the closing characters: it captures the body with
    its trailing white space removed. *)
Lemma rep_lazy_body (y rest : string) (cf : string -> list string)
      (kf : string -> string -> string -> list string -> option A) (r : A) :
  str_all not_gt y = true ->
  kf (rstrip y) (trail_space y ++ "/>") rest (cf (rstrip y)) = Some r ->
  rep_lazy not_gt 0 (y ++ "/>" ++ rest)
    (fun taken s1 =>
       run (Seq (Rep true 0 is_space) (lit "/>")) s1 (cf taken) (kf taken))
  = Some r.
Proof.
  revert cf kf. induction y as [|c y IH]; intros cf kf Hg Hk.
  - rewrite rep_lazy_eq. cbn [Nat.eqb]. rewrite run_tail.
    simpl. simpl in Hk. now rewrite Hk.
  - rewrite rep_lazy_eq. cbn [Nat.eqb]. rewrite run_tail.
    destruct (str_all is_space (String c y)) eqn:E.
    + rewrite lstrip_app_space, lead_space_app_space by exact E.
      rewrite (rstrip_blank _ E), (trail_space_blank _ E) in Hk.
      change (lstrip ("/>" ++ rest)) with ("/>" ++ rest).
      rewrite run_lit.
      change (lead_space ("/>" ++ rest)) with "".
      rewrite str_app_nil_r. now rewrite Hk.
    + rewrite lit_close_fail by assumption.
      cbn [append]. simpl in Hg. apply andb_true_iff in Hg as [Hc Hg].
      rewrite Hc. cbn [pred].
      apply (IH (fun taken => cf (String c taken))
                (fun taken => kf (String c taken)) Hg).
      cbn [rstrip trail_space] in Hk. rewrite E in Hk. exact Hk.
Qed.
End RegexFacts.

(** ** The extractor on one element *)

Section ElementFacts.
Local Open Scope string_scope.

(** A match of the element pattern starts with [<], the requested
    name and a white-space character. *)
Lemma match_starts (name s : string) (r : string * list string) :
  match_at (element_pattern name) s = Some r ->
  exists c s', s = "<" ++ name ++ String c s' /\ is_space c = true.
Proof.
  unfold match_at, element_pattern. intros H.
  cbn [run] in H. destruct s as [|x s]; [discriminate|].
  destruct (Ascii.eqb "<" x) eqn:E; [|discriminate].
  apply Ascii.eqb_eq in E. subst x.
  apply run_lit_inv in H as (s1 & -> & H).
  apply rep_greedy_min1 in H as (c & s' & -> & Hc).
  now exists c, s'.
Qed.

Lemma match_needs_lt (name : string) (c : ascii) (s : string) :
  not_lt c = true -> match_at (element_pattern name) (String c s) = None.
Proof.
  intros H. unfold match_at, element_pattern. cbn [run].
  unfold not_lt in H. rewrite Ascii.eqb_sym.
  now destruct (Ascii.eqb c "<").
Qed.

Lemma str_all_lstrip (p : ascii -> bool) (s : string) :
  str_all p s = true -> str_all p (lstrip s) = true.
Proof.
  induction s as [|c s IH]; [reflexivity|]. intros H.
  cbn [lstrip]. destruct (is_space c); [|exact H].
  simpl in H. apply andb_true_iff in H as [_ H]. now apply IH.
Qed.

Lemma lstrip_close_no_space (s rest : string) :
  match lstrip s ++ "/>" ++ rest with
  | String c _ => is_space c
  | EmptyString => false
  end = false.
Proof.
  pose proof (lstrip_no_space s) as H.
  destruct (lstrip s) as [|c t]; [reflexivity | exact H].
Qed.

(** On an element whose name is followed by white space and whose
    attributes hold no [>], the pattern matches the whole tag and
    captures its attribute text stripped. *)
Lemma match_spaced (e : element) (rest : string) :
  spaced e = true ->
  match_at (element_pattern (el_name e)) (render_element e ++ rest)
  = Some (render_element e, [strip (el_rest e)]).
Proof.
  destruct e as [name rs]. unfold spaced, render_element. cbn [el_name el_rest].
  intros H. apply andb_true_iff in H as [H Hrs].
  apply andb_true_iff in H as [_ Hsp].
  assert (Hg : str_all not_gt (lstrip rs) = true).
  { apply str_all_lstrip. revert Hrs. apply str_all_impl.
    intros c Hc. now apply andb_true_iff in Hc as [_ Hc]. }
  unfold match_at, element_pattern.
  cbn [append]. rewrite !str_app_assoc.
  cbn [run]. change (Ascii.eqb "<" "<") with true. cbv iota.
  rewrite run_lit.
  rewrite <- (lead_space_lstrip rs) at 1. rewrite str_app_assoc.
  erewrite rep_greedy_first; [reflexivity | apply lead_space_all
    | apply lstrip_close_no_space | | ].
  - destruct rs as [|c rs]; [discriminate|]. simpl in Hsp.
    cbn [lead_space]. rewrite Hsp. simpl. lia.
  - apply (rep_lazy_body (lstrip rs) rest (fun taken => [] ++ [taken])%list
             (fun taken t _ caps =>
                Some ("<" ++ name ++ lead_space rs ++ taken ++ t, caps)) _ Hg).
    cbn [app append]. unfold strip. do 3 f_equal.
    rewrite <- (str_app_assoc (rstrip (lstrip rs))), rstrip_trail_space.
    now rewrite <- (str_app_assoc (lead_space rs)), lead_space_lstrip.
Qed.
End ElementFacts.

(** ** The scan of a document *)

Section ScanFacts.
Local Open Scope string_scope.
Variable r : regex.

Lemma scan_cons0 (p : nat) (c : ascii) (s : string) :
  scan r p 0 (String c s) =
  match match_at r (String c s) with
  | Some (t, caps) => mkMatch p t caps :: scan r (S p) (pred (String.length t)) s
  | None => scan r (S p) 0 s
  end.
Proof. reflexivity. Qed.

(** The groups found do not depend on the offset the scan starts at. *)
Lemma scan_groups_pos (s : string) (p p' k : nat) :
  map m_groups (scan r p k s) = map m_groups (scan r p' k s).
Proof.
  revert p p' k. induction s as [|c s IH]; intros p p' [|k]; cbn [scan].
  - now destruct (match_at r "") as [[t caps]|].
  - reflexivity.
  - destruct (match_at r (String c s)) as [[t caps]|]; cbn [map m_groups].
    + f_equal. apply IH.
    + apply IH.
  - apply IH.
Qed.

Lemma scan_skip (a s : string) (p p' : nat) :
  map m_groups (scan r p (String.length a) (a ++ s))
  = map m_groups (scan r p' 0 s).
Proof.
  revert p. induction a as [|c a IH]; intros p.
  - apply scan_groups_pos.
  - cbn [String.length append scan]. apply IH.
Qed.

(** A match at the head of the text is reported, and the scan goes on
    behind it. *)
Lemma scan_match (x s : string) (caps : list string) (p p' : nat) :
  truthy x = true ->
  match_at r (x ++ s) = Some (x, caps) ->
  map m_groups (scan r p 0 (x ++ s))
  = caps :: map m_groups (scan r p' 0 s).
Proof.
  destruct x as [|c x]; [discriminate|]. intros _ H.
  cbn [append] in *. rewrite scan_cons0, H.
  cbn [map m_groups String.length pred]. f_equal. apply scan_skip.
Qed.
End ScanFacts.

Section DocumentFacts.
Local Open Scope string_scope.

Lemma scan_no_lt (name a s : string) (p p' : nat) :
  str_all not_lt a = true ->
  map m_groups (scan (element_pattern name) p 0 (a ++ s))
  = map m_groups (scan (element_pattern name) p' 0 s).
Proof.
  revert p. induction a as [|c a IH]; intros p H.
  - apply scan_groups_pos.
  - simpl in H. apply andb_true_iff in H as [Hc Ha].
    cbn [append]. rewrite scan_cons0, match_needs_lt by exact Hc.
    now apply IH.
Qed.

(** Two names that end at a white-space character of the same text are
    the same name. *)
Lemma name_end_unique (a b : string) (c d : ascii) (x y : string) :
  tag_name a = true -> tag_name b = true ->
  is_space c = true -> is_space d = true ->
  a ++ String c x = b ++ String d y -> a = b.
Proof.
  unfold tag_name.
  revert b. induction a as [|u a IH]; intros [|v b] Ha Hb Hc Hd E;
    cbn [append] in E; cbn [str_all] in Ha, Hb.
  - reflexivity.
  - injection E as -> _. now rewrite Hc in Hb.
  - injection E as -> _. now rewrite Hd in Ha.
  - injection E as -> E.
    apply andb_true_iff in Ha as [_ Ha]. apply andb_true_iff in Hb as [_ Hb].
    f_equal. now apply (IH b).
Qed.

(** An element of another name is not matched. *)
Lemma match_other_name (name : string) (e : element) (rest : string) :
  tag_name name = true -> spaced e = true -> named name e = false ->
  match_at (element_pattern name) (render_element e ++ rest) = None.
Proof.
  intros Hn He Hne.
  destruct (match_at (element_pattern name) (render_element e ++ rest))
    as [m|] eqn:M; [exfalso | reflexivity].
  apply match_starts in M as (c & s' & E & Hc).
  destruct e as [en rs]. unfold render_element, spaced, named in *.
  cbn [el_name el_rest] in *.
  apply andb_true_iff in He as [He _]. apply andb_true_iff in He as [Hen Hsp].
  destruct rs as [|d rs]; [discriminate|]. simpl in Hsp.
  cbn [append] in E. injection E as E. rewrite !str_app_assoc in E.
  cbn [append] in E.
  apply name_end_unique in E; try assumption.
  subst en. now rewrite String.eqb_refl in Hne.
Qed.

Lemma spaced_no_lt (e : element) :
  spaced e = true -> str_all not_lt (el_name e ++ el_rest e ++ "/>") = true.
Proof.
  unfold spaced. intros H. apply andb_true_iff in H as [H Hrs].
  apply andb_true_iff in H as [Hn _].
  rewrite !str_all_app. apply andb_true_iff. split; [|apply andb_true_iff; split].
  - revert Hn. apply str_all_impl. intros c Hc.
    now apply andb_true_iff in Hc as [_ Hc].
  - revert Hrs. apply str_all_impl. intros c Hc.
    now apply andb_true_iff in Hc as [Hc _].
  - reflexivity.
Qed.

(** On a document of elements the pattern is written for, the scan
    reports exactly the elements of the requested name, each with its
    attribute text stripped. *)
Lemma scan_render (name : string) (doc : list segment) (p : nat) :
  tag_name name = true ->
  Forall (fun g => spaced_segment g = true) doc ->
  map m_groups (scan (element_pattern name) p 0 (render doc))
  = map (fun e => [strip (el_rest e)])
        (filter (named name) (elements_of doc)).
Proof.
  intros Hn Hdoc. revert p. induction Hdoc as [|g doc Hg _ IH]; intros p.
  - reflexivity.
  - cbn [render]. destruct g as [t|e]; cbn [render_segment].
    + rewrite (scan_no_lt name t (render doc) p p Hg). apply IH.
    + cbn [spaced_segment] in Hg. cbn [elements_of flat_map app filter].
      fold (elements_of doc).
      destruct (named name e) eqn:Ne.
      * cbn [map]. unfold named in Ne. apply String.eqb_eq in Ne. subst name.
        pose proof (match_spaced e (render doc) Hg) as M.
        rewrite (scan_match _ (render_element e) _ _ p p eq_refl M). f_equal. apply IH.
      * pose proof (match_other_name name e (render doc) Hn Hg Ne) as M.
        pose proof (spaced_no_lt e Hg) as L.
        change (render_element e ++ render doc)
          with (String "<" ((el_name e ++ el_rest e ++ "/>") ++ render doc))
          in M |- *.
        rewrite scan_cons0, M.
        rewrite (scan_no_lt name _ (render doc) (S p) p L). apply IH.
Qed.

Lemma findall_groups (rx : regex) (s : string) :
  findall rx s = map (fun g => nth 0 g "") (map m_groups (finditer rx s)).
Proof. unfold findall. now rewrite map_map. Qed.

(** The extractor on such a document. *)
Lemma extract_render (name : string) (doc : list segment) :
  tag_name name = true ->
  Forall (fun g => spaced_segment g = true) doc ->
  extract_elements (render doc) name
  = map (fun e => parse_attrs (strip (el_rest e)))
        (filter (named name) (elements_of doc)).
Proof.
  intros Hn Hdoc. unfold extract_elements.
  rewrite findall_groups. unfold finditer.
  rewrite (scan_render name doc 0 Hn Hdoc), !map_map. reflexivity.
Qed.
End DocumentFacts.

(** ** Where a match starts *)

Section StartFacts.
Local Open Scope string_scope.

Lemma scan_start (r : regex) (s : string) (p k : nat) (m : Match) :
  In m (scan r p k s) ->
  p <= m_start m /\
  match_at r (slice_from (m_start m - p) s) = Some (m_text m, m_groups m).
Proof.
  revert p k. induction s as [|c s IH]; intros p [|k] H; cbn [scan] in H.
  - destruct (match_at r "") as [[t caps]|] eqn:M; [|contradiction].
    destruct H as [<-|[]]. cbn [m_start m_text m_groups].
    rewrite Nat.sub_diag. now split.
  - contradiction.
  - destruct (match_at r (String c s)) as [[t caps]|] eqn:M.
    + destruct H as [<-|H].
      * cbn [m_start m_text m_groups]. rewrite Nat.sub_diag. now split.
      * destruct (IH _ _ H) as [L E]. split; [lia|].
        replace (m_start m - p) with (S (m_start m - S p)) by lia. exact E.
    + destruct (IH _ _ H) as [L E]. split; [lia|].
      replace (m_start m - p) with (S (m_start m - S p)) by lia. exact E.
  - destruct (IH _ _ H) as [L E]. split; [lia|].
    replace (m_start m - p) with (S (m_start m - S p)) by lia. exact E.
Qed.

Lemma finditer_start (r : regex) (s : string) (m : Match) :
  In m (finditer r s) ->
  match_at r (slice_from (m_start m) s) = Some (m_text m, m_groups m).
Proof.
  intros H. apply scan_start in H as [_ H].
  now rewrite Nat.sub_0_r in H.
Qed.
End StartFacts.

(** ** Dictionaries *)

Section DictFacts.
Context {V : Type}.
Implicit Types (d : dict V) (k : string) (v : V).

Lemma dict_get_set_same k v d : dict_get k (dict_set k v d) = Some v.
Proof.
  induction d as [|[k' v'] d IH]; simpl.
  - now rewrite String.eqb_refl.
  - destruct (String.eqb k k') eqn:E; simpl; rewrite E; [reflexivity | exact IH].
Qed.

Lemma dict_get_set_other k k' v d :
  k <> k' -> dict_get k (dict_set k' v d) = dict_get k d.
Proof.
  intros N. induction d as [|[k2 v2] d IH]; simpl.
  - apply String.eqb_neq in N. now rewrite N.
  - destruct (String.eqb k' k2) eqn:E; simpl.
    + apply String.eqb_eq in E. subst k2.
      apply String.eqb_neq in N. now rewrite N.
    + now rewrite IH.
Qed.

Lemma dict_get_none k d : dict_get k d = None <-> ~ In k (keys d).
Proof.
  induction d as [|[k' v'] d IH]; simpl.
  - tauto.
  - destruct (String.eqb k k') eqn:E.
    + apply String.eqb_eq in E. subst. split; [discriminate | tauto].
    + apply String.eqb_neq in E. rewrite IH. split.
      * intros H [K|K]; [now apply E | now apply H].
      * tauto.
Qed.

Lemma dict_get_in k v d : dict_get k d = Some v -> In (k, v) d.
Proof.
  induction d as [|[k' v'] d IH]; simpl; [discriminate|].
  destruct (String.eqb k k') eqn:E.
  - apply String.eqb_eq in E. subst. intros [= ->]. now left.
  - intros H. right. now apply IH.
Qed.

Lemma dict_in_get k v d : dict_wf d -> In (k, v) d -> dict_get k d = Some v.
Proof.
  unfold dict_wf. induction d as [|[k' v'] d IH]; simpl; [tauto|].
  intros W [H|H]; inversion W as [|? ? Hn W']; subst.
  - injection H as -> ->. now rewrite String.eqb_refl.
  - destruct (String.eqb k k') eqn:E.
    + apply String.eqb_eq in E. subst k'. exfalso. apply Hn.
      change k with (fst (k, v)). now apply in_map.
    + now apply IH.
Qed.

Lemma keys_set k v d :
  keys (dict_set k v d) = if dict_has k d then keys d else keys d ++ [k].
Proof.
  unfold dict_has. induction d as [|[k' v'] d IH]; simpl; [reflexivity|].
  destruct (String.eqb k k') eqn:E; simpl; [reflexivity|].
  rewrite IH. now destruct (dict_get k d).
Qed.

Lemma dict_set_new k v d : dict_get k d = None -> dict_set k v d = d ++ [(k, v)].
Proof.
  induction d as [|[k' v'] d IH]; simpl; [reflexivity|].
  destruct (String.eqb k k'); [discriminate|]. intros H. now rewrite IH.
Qed.

Lemma dict_wf_set k v d : dict_wf d -> dict_wf (dict_set k v d).
Proof.
  unfold dict_wf. intros W. rewrite keys_set. unfold dict_has.
  destruct (dict_get k d) eqn:E; [exact W|].
  apply dict_get_none in E.
  apply NoDup_rev in W. rewrite <- (rev_involutive (keys d ++ [k])).
  apply NoDup_rev. rewrite rev_app_distr. simpl. constructor; [|exact W].
  now rewrite <- in_rev.
Qed.

Lemma dict_has_set k k' v d :
  dict_has k (dict_set k' v d) = String.eqb k k' || dict_has k d.
Proof.
  unfold dict_has. destruct (String.eqb k k') eqn:E.
  - apply String.eqb_eq in E. subst. now rewrite dict_get_set_same.
  - apply String.eqb_neq in E. now rewrite dict_get_set_other.
Qed.
End DictFacts.

(** ** The attributes of one occurrence *)

Section AttrFacts.
Lemma find_app {A : Type} (f : A -> bool) (l1 l2 : list A) :
  find f (l1 ++ l2) =
  match find f l1 with Some x => Some x | None => find f l2 end.
Proof.
  induction l1 as [|a l1 IH]; simpl; [reflexivity|].
  now destruct (f a).
Qed.

Lemma fold_attrs_wf (l : list Match) (acc : dict string) :
  dict_wf acc ->
  dict_wf (fold_left (fun attrs am => dict_set (group am 1) (group am 2) attrs)
                     l acc).
Proof.
  revert acc. induction l as [|a l IH]; intros acc W; simpl; [exact W|].
  apply IH. now apply dict_wf_set.
Qed.

Lemma fold_attrs_get (name : string) (l : list Match) (acc : dict string) :
  dict_get name
    (fold_left (fun attrs am => dict_set (group am 1) (group am 2) attrs) l acc)
  = match last_attr name l with
    | Some v => Some v
    | None => dict_get name acc
    end.
Proof.
  revert acc. induction l as [|a l IH]; intros acc; [reflexivity|].
  cbn [fold_left]. rewrite IH. unfold last_attr. cbn [rev].
  rewrite find_app.
  destruct (find _ (rev l)) as [x|]; [reflexivity|].
  cbn [find option_map].
  destruct (String.eqb (group a 1) name) eqn:E; cbn [option_map].
  - apply String.eqb_eq in E. rewrite <- E. apply dict_get_set_same.
  - apply String.eqb_neq in E. apply dict_get_set_other. congruence.
Qed.

Lemma parse_attrs_wf (text : string) : dict_wf (parse_attrs text).
Proof. apply fold_attrs_wf. constructor. Qed.

Lemma parse_attrs_get (name text : string) :
  dict_get name (parse_attrs text)
  = last_attr name (finditer attr_pattern text).
Proof.
  unfold parse_attrs. rewrite fold_attrs_get.
  now destruct (last_attr name (finditer attr_pattern text)).
Qed.

Lemma extract_elements_wf (xml_content element_name : string) :
  Forall dict_wf (extract_elements xml_content element_name).
Proof.
  unfold extract_elements. apply Forall_forall. intros d H.
  apply in_map_iff in H as (t & <- & _). apply parse_attrs_wf.
Qed.
End AttrFacts.

(** ** The first loop of the aggregator *)

Section TallyFacts.
Implicit Types (fs : dict field_stat) (k f v : string).

Lemma dict_get_update_same f (g : field_stat -> field_stat) fs :
  dict_get f (dd_update f g fs) = Some (g (dd_get f fs)).
Proof. apply dict_get_set_same. Qed.

Lemma dd_get_update_same f (g : field_stat -> field_stat) fs :
  dd_get f (dd_update f g fs) = g (dd_get f fs).
Proof. unfold dd_get at 1. now rewrite dict_get_update_same. Qed.

Lemma dict_get_update_other k f (g : field_stat -> field_stat) fs :
  k <> f -> dict_get k (dd_update f g fs) = dict_get k fs.
Proof. intros N. now apply dict_get_set_other. Qed.

Lemma count_field_same f v fs :
  dict_get f (count_field fs (f, v)) = Some (bump v (dd_get f fs)).
Proof.
  unfold count_field, bump. fold (non_blank v).
  destruct (non_blank v).
  - rewrite !dd_get_update_same. cbn [st_sample_values].
    destruct (List.length (st_sample_values (dd_get f fs)) <? 5)%nat.
    + now rewrite dict_get_update_same, !dd_get_update_same.
    + now rewrite dict_get_update_same, !dd_get_update_same.
  - now rewrite dict_get_update_same.
Qed.

Lemma count_field_other k f v fs :
  k <> f -> dict_get k (count_field fs (f, v)) = dict_get k fs.
Proof.
  intros N. unfold count_field.
  destruct (truthy v && truthy (strip v)).
  - destruct (List.length _ <? 5)%nat;
      now rewrite !dict_get_update_other by exact N.
  - now rewrite dict_get_update_other.
Qed.

Lemma count_field_wf fs (item : string * string) :
  dict_wf fs -> dict_wf (count_field fs item).
Proof.
  intros W. destruct item as [f v]. unfold count_field, dd_update.
  destruct (truthy v && truthy (strip v)).
  - destruct (List.length _ <? 5)%nat; repeat apply dict_wf_set; exact W.
  - now apply dict_wf_set.
Qed.

Lemma fold_count_wf (items : list (string * string)) fs :
  dict_wf fs -> dict_wf (fold_left count_field items fs).
Proof.
  revert fs. induction items as [|it items IH]; intros fs W; simpl; [exact W|].
  apply IH. now apply count_field_wf.
Qed.

(** The statistic of an attribute only depends on the items of that
    attribute. *)
Lemma fold_count_get k (items : list (string * string)) fs :
  dd_get k (fold_left count_field items fs)
  = fold_left (fun st v => bump v st) (values_for k items) (dd_get k fs).
Proof.
  revert fs. induction items as [|[f v] items IH]; intros fs; [reflexivity|].
  cbn [fold_left]. rewrite IH. unfold values_for. cbn [filter fst].
  destruct (String.eqb f k) eqn:E.
  - apply String.eqb_eq in E. subst f. cbn [map snd fold_left].
    unfold dd_get at 1. now rewrite count_field_same.
  - apply String.eqb_neq in E. unfold dd_get at 1.
    rewrite count_field_other by congruence. reflexivity.
Qed.

Lemma fold_count_has k (items : list (string * string)) fs :
  dict_has k (fold_left count_field items fs)
  = dict_has k fs || negb (Nat.eqb (List.length (values_for k items)) 0).
Proof.
  revert fs. induction items as [|[f v] items IH]; intros fs.
  - cbn. now rewrite orb_false_r.
  - cbn [fold_left]. rewrite IH. unfold values_for. cbn [filter fst].
    unfold dict_has at 1. destruct (String.eqb f k) eqn:E.
    + apply String.eqb_eq in E. subst f. rewrite count_field_same.
      cbn. now rewrite orb_true_r.
    + apply String.eqb_neq in E.
      rewrite count_field_other by congruence. reflexivity.
Qed.

Lemma bump_fold_present (vs : list string) (st : field_stat) :
  st_present (fold_left (fun st v => bump v st) vs st)
  = (st_present st + Z.of_nat (List.length vs))%Z.
Proof.
  revert st. induction vs as [|v vs IH]; intros st.
  - cbn. lia.
  - cbn [fold_left List.length]. rewrite IH. unfold bump.
    destruct (non_blank v); cbn [st_present]; lia.
Qed.

Lemma bump_fold_non_empty (vs : list string) (st : field_stat) :
  st_non_empty (fold_left (fun st v => bump v st) vs st)
  = (st_non_empty st + Z.of_nat (List.length (filter non_blank vs)))%Z.
Proof.
  revert st. induction vs as [|v vs IH]; intros st.
  - cbn. lia.
  - cbn [fold_left filter]. rewrite IH. unfold bump.
    destruct (non_blank v); cbn [st_non_empty List.length]; lia.
Qed.

Lemma bump_fold_samples (vs : list string) (st : field_stat) :
  st_sample_values (fold_left (fun st v => bump v st) vs st)
  = collect (map (slice_to 50) (filter non_blank vs)) (st_sample_values st).
Proof.
  revert st. induction vs as [|v vs IH]; intros st; [reflexivity|].
  cbn [fold_left filter]. rewrite IH. unfold bump.
  destruct (non_blank v); reflexivity.
Qed.

Lemma fold_left_concat {A B : Type} (f : A -> B -> A) (ls : list (list B)) (a : A) :
  fold_left (fun acc l => fold_left f l acc) ls a = fold_left f (List.concat ls) a.
Proof.
  revert a. induction ls as [|l ls IH]; intros a; [reflexivity|].
  cbn [fold_left List.concat]. now rewrite fold_left_app, IH.
Qed.

Lemma tally_concat (elements : list (dict string)) :
  tally elements = fold_left count_field (List.concat elements) [].
Proof. unfold tally, count_element. apply fold_left_concat. Qed.

Lemma tally_wf (elements : list (dict string)) : dict_wf (tally elements).
Proof. rewrite tally_concat. apply fold_count_wf. constructor. Qed.
End TallyFacts.

(** ** Occurrences and counts *)

Section OccurrenceFacts.
Implicit Types (k : string) (d : dict string).

Lemma non_blank_eq (v : string) : non_blank v = non_empty_value v.
Proof. unfold non_blank, non_empty_value. now destruct v. Qed.

Lemma values_for_app k (a b : list (string * string)) :
  values_for k (a ++ b) = values_for k a ++ values_for k b.
Proof. unfold values_for. now rewrite filter_app, map_app. Qed.

Lemma values_for_absent k d : dict_get k d = None -> values_for k d = [].
Proof.
  unfold values_for. induction d as [|[k' v'] d IH]; [reflexivity|].
  cbn [dict_get filter fst]. rewrite (String.eqb_sym k' k).
  destruct (String.eqb k k'); [discriminate | exact IH].
Qed.

(** In a dictionary an attribute has at most one value. *)
Lemma values_for_wf k d :
  dict_wf d ->
  values_for k d = match dict_get k d with Some v => [v] | None => [] end.
Proof.
  unfold dict_wf. induction d as [|[k' v'] d IH]; intros W; [reflexivity|].
  inversion W as [|? ? Hn W']; subst.
  unfold values_for in *. cbn [dict_get filter fst].
  rewrite (String.eqb_sym k' k). destruct (String.eqb k k') eqn:E.
  - apply String.eqb_eq in E. subst k'. cbn [map snd]. f_equal.
    apply (values_for_absent k d). now apply dict_get_none.
  - now apply IH.
Qed.

Lemma values_for_concat k (elements : list (dict string)) :
  values_for k (List.concat elements) = flat_map (values_for k) elements.
Proof.
  induction elements as [|d elements IH]; [reflexivity|].
  cbn [List.concat flat_map]. now rewrite values_for_app, IH.
Qed.

Lemma count_present k (elements : list (dict string)) :
  Forall dict_wf elements ->
  List.length (values_for k (List.concat elements)) = occ_present k elements.
Proof.
  rewrite values_for_concat. unfold occ_present.
  induction 1 as [|d elements W _ IH]; [reflexivity|].
  cbn [flat_map filter]. rewrite length_app, IH, (values_for_wf k d W).
  unfold dict_has. now destruct (dict_get k d).
Qed.

Lemma count_non_empty k (elements : list (dict string)) :
  Forall dict_wf elements ->
  List.length (filter non_blank (values_for k (List.concat elements)))
  = occ_non_empty k elements.
Proof.
  rewrite values_for_concat. unfold occ_non_empty.
  induction 1 as [|d elements W _ IH]; [reflexivity|].
  cbn [flat_map filter]. rewrite filter_app, length_app, IH, (values_for_wf k d W).
  unfold has_non_empty. destruct (dict_get k d) as [v|]; [|reflexivity].
  cbn [filter]. rewrite non_blank_eq. now destruct (non_empty_value v).
Qed.

Lemma values_truncated k (elements : list (dict string)) :
  Forall dict_wf elements ->
  map (slice_to 50) (filter non_blank (values_for k (List.concat elements)))
  = truncated_values k elements.
Proof.
  rewrite values_for_concat. unfold truncated_values.
  induction 1 as [|d elements W _ IH]; [reflexivity|].
  cbn [flat_map]. rewrite filter_app, map_app, IH, (values_for_wf k d W).
  destruct (dict_get k d) as [v|]; [|reflexivity].
  cbn [filter]. rewrite non_blank_eq. now destruct (non_empty_value v).
Qed.

Lemma occ_non_empty_le k (elements : list (dict string)) :
  occ_non_empty k elements <= occ_present k elements.
Proof.
  unfold occ_non_empty, occ_present, has_non_empty, dict_has.
  induction elements as [|d elements IH]; [apply le_n|].
  cbn [filter]. destruct (dict_get k d) as [v|]; [|exact IH].
  destruct (non_empty_value v); cbn [List.length]; lia.
Qed.

Lemma occ_present_le k (elements : list (dict string)) :
  occ_present k elements <= List.length elements.
Proof. apply filter_length_le. Qed.
End OccurrenceFacts.

(** ** The samples *)

Section SampleFacts.
Lemma set_add_length (x : string) (s : list string) :
  List.length (set_add x s) <= S (List.length s).
Proof.
  unfold set_add. destruct (existsb _ s); [lia|].
  rewrite length_app. simpl. lia.
Qed.

Lemma set_add_prefix (x : string) (s : list string) :
  exists ext, set_add x s = s ++ ext.
Proof.
  unfold set_add. destruct (existsb _ s).
  - exists []. now rewrite app_nil_r.
  - now exists [x].
Qed.

Lemma add_fold_prefix (vs seen : list string) :
  exists ext, fold_left (fun s v => set_add v s) vs seen = seen ++ ext.
Proof.
  revert seen. induction vs as [|v vs IH]; intros seen.
  - exists []. now rewrite app_nil_r.
  - cbn [fold_left]. destruct (IH (set_add v seen)) as [e1 E1].
    destruct (set_add_prefix v seen) as [e2 E2].
    exists (e2 ++ e1). now rewrite E1, E2, app_assoc.
Qed.

Lemma firstn_full_prefix {A : Type} (n : nat) (l ext : list A) :
  List.length l = n -> firstn n (l ++ ext) = l.
Proof.
  intros <-. rewrite firstn_app, Nat.sub_diag, firstn_all. cbn.
  apply app_nil_r.
Qed.

(** The guarded insertion keeps the first five distinct values. *)
Lemma collect_firstn (vs seen : list string) :
  List.length seen <= 5 ->
  collect vs seen = firstn 5 (fold_left (fun s v => set_add v s) vs seen).
Proof.
  unfold collect. revert seen. induction vs as [|v vs IH]; intros seen L.
  - cbn [fold_left]. symmetry. now apply firstn_all2.
  - cbn [fold_left]. destruct (List.length seen <? 5)%nat eqn:E.
    + apply Nat.ltb_lt in E. apply IH.
      pose proof (set_add_length v seen). lia.
    + apply Nat.ltb_ge in E. assert (L5 : List.length seen = 5) by lia.
      rewrite (IH seen L).
      destruct (add_fold_prefix vs seen) as [e1 ->].
      destruct (add_fold_prefix vs (set_add v seen)) as [e2 ->].
      destruct (set_add_prefix v seen) as [e3 ->].
      rewrite <- app_assoc.
      now rewrite !(firstn_full_prefix 5 seen) by exact L5.
Qed.

Lemma collect_first_seen (vs : list string) :
  collect vs [] = firstn 5 (first_seen vs).
Proof. apply collect_firstn. cbn. lia. Qed.

Lemma set_add_nodup (x : string) (s : list string) :
  NoDup s -> NoDup (set_add x s).
Proof.
  intros N. unfold set_add. destruct (existsb (String.eqb x) s) eqn:E; [exact N|].
  apply NoDup_rev in N. rewrite <- (rev_involutive (s ++ [x])).
  apply NoDup_rev. rewrite rev_app_distr. cbn. constructor; [|exact N].
  rewrite <- in_rev. intros I.
  assert (existsb (String.eqb x) s = true) as T; [|congruence].
  apply existsb_exists. exists x. split; [exact I | apply String.eqb_refl].
Qed.

Lemma add_fold_nodup (vs seen : list string) :
  NoDup seen -> NoDup (fold_left (fun s v => set_add v s) vs seen).
Proof.
  revert seen. induction vs as [|v vs IH]; intros seen N; [exact N|].
  cbn [fold_left]. apply IH. now apply set_add_nodup.
Qed.

Lemma set_add_in (x y : string) (s : list string) :
  In y (set_add x s) <-> y = x \/ In y s.
Proof.
  unfold set_add. destruct (existsb (String.eqb x) s) eqn:E.
  - split; [tauto|]. intros [->|I]; [|exact I].
    apply existsb_exists in E as (z & I & Z).
    apply String.eqb_eq in Z. now subst z.
  - rewrite in_app_iff. cbn. intuition congruence.
Qed.

Lemma add_fold_in (vs seen : list string) (y : string) :
  In y (fold_left (fun s v => set_add v s) vs seen) <-> In y vs \/ In y seen.
Proof.
  revert seen. induction vs as [|v vs IH]; intros seen; cbn [fold_left].
  - cbn. tauto.
  - rewrite IH, set_add_in. cbn. intuition congruence.
Qed.

Lemma first_seen_nodup (vs : list string) : NoDup (first_seen vs).
Proof. apply add_fold_nodup. constructor. Qed.

Lemma first_seen_in (vs : list string) (y : string) :
  In y (first_seen vs) <-> In y vs.
Proof. unfold first_seen. rewrite add_fold_in. cbn. tauto. Qed.
End SampleFacts.

(** ** The second loop of the aggregator *)

Section PercentageFacts.
Variable set_iter : list string -> list string.

Lemma int_truediv_some (a b : Z) :
  b <> 0%Z ->
  int_truediv a b = Some (SFdiv prec emax (exact_int a) (exact_int b)).
Proof.
  intros N. unfold int_truediv. apply Z.eqb_neq in N. now rewrite N.
Qed.

Lemma percentage_step_eq (total : Z) (acc : dict field_result)
      (f : string) (st : field_stat) :
  total <> 0%Z ->
  percentage_step set_iter total (Some acc) (f, st)
  = Some (dict_set f (finalize set_iter total st) acc).
Proof.
  intros N. unfold percentage_step, finalize, percent. cbn [bind].
  rewrite !int_truediv_some by exact N. cbn [bind].
  destruct (st_present st >? 0)%Z; reflexivity.
Qed.

Lemma percentage_fold (total : Z) (l : dict field_stat) (acc : dict field_result) :
  total <> 0%Z ->
  NoDup (keys acc ++ keys l) ->
  fold_left (percentage_step set_iter total) l (Some acc)
  = Some (acc ++ map (fun it => (fst it, finalize set_iter total (snd it))) l).
Proof.
  intros N. revert acc. induction l as [|[f st] l IH]; intros acc D.
  - cbn. now rewrite app_nil_r.
  - cbn [fold_left]. rewrite percentage_step_eq by exact N.
    assert (A : dict_get f acc = None).
    { apply dict_get_none. intros I. cbn [keys map fst] in D.
      apply NoDup_remove_2 in D. apply D. apply in_or_app. now left. }
    rewrite (dict_set_new _ _ _ A), IH.
    + rewrite <- app_assoc. reflexivity.
    + unfold keys in *. rewrite map_app. cbn [map fst] in *.
      now rewrite <- app_assoc.
Qed.

(** On a non-empty input the aggregator returns the statistics of the
    first loop, finalised entry by entry: no exception is raised. *)
Lemma analyze_fields_eq (elements : list (dict string)) :
  elements <> [] ->
  analyze_fields set_iter elements
  = Some (map (fun it => (fst it,
                          finalize set_iter (Z.of_nat (List.length elements))
                                   (snd it)))
              (tally elements)).
Proof.
  intros N. unfold analyze_fields.
  assert (T : Z.of_nat (List.length elements) <> 0%Z).
  { destruct elements; [congruence | cbn [List.length]; lia]. }
  pose proof T as T'. apply Z.eqb_neq in T'. rewrite T'.
  apply (percentage_fold _ _ [] T). cbn [keys map app]. apply tally_wf.
Qed.

Lemma analyze_fields_empty : analyze_fields set_iter [] = Some [].
Proof. reflexivity. Qed.

Lemma dict_get_map {V W : Type} (g : V -> W) (k : string) (d : dict V) :
  dict_get k (map (fun it => (fst it, g (snd it))) d)
  = option_map g (dict_get k d).
Proof.
  induction d as [|[k' v] d IH]; [reflexivity|].
  cbn [map dict_get fst snd]. now destruct (String.eqb k k').
Qed.

Lemma keys_map {V W : Type} (g : V -> W) (d : dict V) :
  keys (map (fun it => (fst it, g (snd it))) d) = keys d.
Proof. unfold keys. rewrite map_map. reflexivity. Qed.

(** The statistic behind an entry of the result. *)
Lemma analyze_fields_get (elements : list (dict string)) (results : dict field_result)
      (k : string) (r : field_result) :
  elements <> [] ->
  analyze_fields set_iter elements = Some results ->
  dict_get k results = Some r ->
  dict_has k (tally elements) = true /\
  r = finalize set_iter (Z.of_nat (List.length elements))
               (dd_get k (tally elements)).
Proof.
  intros N A G. rewrite (analyze_fields_eq _ N) in A. injection A as <-.
  rewrite dict_get_map in G. unfold dict_has, dd_get.
  destruct (dict_get k (tally elements)); [|discriminate].
  cbn in G. injection G as <-. now split.
Qed.

(** The statistic of an attribute in terms of its occurrences. *)
Lemma tally_stat (elements : list (dict string)) (k : string) :
  Forall dict_wf elements ->
  dd_get k (tally elements)
  = mkStat (Z.of_nat (occ_present k elements))
           (Z.of_nat (occ_non_empty k elements))
           (collected k elements).
Proof.
  intros W. rewrite tally_concat, fold_count_get.
  set (vs := values_for k (List.concat elements)).
  pose proof (bump_fold_present vs (dd_get k [])) as P.
  pose proof (bump_fold_non_empty vs (dd_get k [])) as Q.
  pose proof (bump_fold_samples vs (dd_get k [])) as R.
  destruct (fold_left _ vs (dd_get k [])) as [p q s].
  cbn [st_present st_non_empty st_sample_values dd_get dict_get default_stat] in *.
  subst p q s. unfold vs.
  rewrite (count_present k elements W), (count_non_empty k elements W).
  rewrite (values_truncated k elements W), collect_first_seen.
  reflexivity.
Qed.

Lemma tally_has (elements : list (dict string)) (k : string) :
  Forall dict_wf elements ->
  dict_has k (tally elements) = negb (Nat.eqb (occ_present k elements) 0).
Proof.
  intros W. rewrite tally_concat, fold_count_has.
  now rewrite (count_present k elements W).
Qed.
End PercentageFacts.

(** ** Binary64 arithmetic *)

Section FloatFacts.
Local Open Scope Z_scope.

Lemma shr_1_nonneg (mrs : shr_record) :
  0 <= shr_m mrs -> 0 <= shr_m (shr_1 mrs).
Proof.
  destruct mrs as [m r s]. cbn [shr_m]. intros H.
  destruct m as [|p|p]; [cbn; lia | | lia].
  destruct p; cbn; lia.
Qed.

Lemma iter_shr_1_nonneg (n : positive) (mrs : shr_record) :
  0 <= shr_m mrs -> 0 <= shr_m (iter_pos shr_1 n mrs).
Proof.
  revert mrs. induction n as [n IH|n IH|]; intros mrs H; cbn [iter_pos].
  - apply IH, IH, shr_1_nonneg, H.
  - apply IH, IH, H.
  - apply shr_1_nonneg, H.
Qed.

Lemma shr_fexp_nonneg (m e : Z) (l : location) :
  0 <= m -> 0 <= shr_m (fst (shr_fexp prec emax m e l)).
Proof.
  intros H. unfold shr_fexp, shr.
  assert (R : 0 <= shr_m (shr_record_of_loc m l)).
  { destruct l as [|[]]; exact H. }
  destruct (fexp prec emax (Zdigits2 m + e) - e); cbn [fst]; try exact R.
  now apply iter_shr_1_nonneg.
Qed.

Lemma round_nearest_even_nonneg (m : Z) (l : location) :
  0 <= m -> 0 <= round_nearest_even m l.
Proof.
  intros H. destruct l as [|[]]; cbn; try lia.
  destruct (Z.even m); lia.
Qed.

(** Rounding a non-negative mantissa never yields a NaN. *)
Lemma binary_round_aux_not_nan (sx : bool) (mx ex : Z) (lx : location) :
  0 <= mx -> is_nan (binary_round_aux prec emax sx mx ex lx) = false.
Proof.
  intros H. unfold binary_round_aux.
  pose proof (shr_fexp_nonneg mx ex lx H) as H1.
  destruct (shr_fexp prec emax mx ex lx) as [mrs1 e1]. cbn [fst] in H1.
  pose proof (shr_fexp_nonneg _ e1 loc_Exact
                (round_nearest_even_nonneg _ (loc_of_shr_record mrs1) H1)) as H2.
  destruct (shr_fexp prec emax _ e1 loc_Exact) as [mrs2 e2]. cbn [fst] in H2.
  destruct (shr_m mrs2) as [|m|m]; [reflexivity | | lia].
  now destruct (e2 <=? emax - prec).
Qed.

Lemma SFdiv_core_nonneg (m1 m2 : positive) (e1 e2 : Z) :
  0 <= fst (fst (SFdiv_core_binary prec emax (Zpos m1) e1 (Zpos m2) e2)).
Proof.
  unfold SFdiv_core_binary.
  set (s := e1 - e2 - _).
  set (m' := match s with Z0 => Zpos m1 | Zpos _ => Z.shiftl (Zpos m1) s
                     | Zneg _ => 0 end).
  assert (M : 0 <= m').
  { unfold m'. destruct s; try lia. apply Z.shiftl_nonneg. lia. }
  pose proof (Z.div_pos m' (Zpos m2) M ltac:(lia)) as D.
  unfold Z.div in D. destruct (Z.div_eucl m' (Zpos m2)) as [q r].
  exact D.
Qed.

Lemma int_div_not_nan (a b : Z) :
  0 <= a -> 0 < b -> is_nan (SFdiv prec emax (exact_int a) (exact_int b)) = false.
Proof.
  intros Ha Hb. destruct b as [|pb|pb]; try lia.
  destruct a as [|pa|pa]; try lia; [reflexivity|].
  cbn [exact_int SFdiv].
  pose proof (SFdiv_core_nonneg pa pb 0 0) as N.
  destruct (SFdiv_core_binary prec emax (Zpos pa) 0 (Zpos pb) 0) as [[mz ez] lz].
  cbn [fst] in N. now apply binary_round_aux_not_nan.
Qed.

Lemma float_100 : float_of_int 100 = S754_finite false 7036874417766400 (-46).
Proof. vm_compute. reflexivity. Qed.

Lemma mul_100_not_nan (x : spec_float) :
  is_nan x = false -> is_nan (float_mul_int x 100) = false.
Proof.
  intros H. unfold float_mul_int. rewrite float_100.
  destruct x as [s|s| |s m e]; try discriminate; try reflexivity.
  cbn [SFmul]. apply binary_round_aux_not_nan. lia.
Qed.

(** A percentage of a count is never a NaN. *)
Lemma percent_not_nan (n total : Z) :
  0 <= n -> 0 < total -> is_nan (percent n total) = false.
Proof.
  intros Hn Ht. unfold percent. now apply mul_100_not_nan, int_div_not_nan.
Qed.

(** On ordered numbers [<] is the negation of [>=]. *)
Lemma py_lt_not_ge (x c : pynum) :
  ordered_num x = true -> ordered_num c = true ->
  py_lt x c = negb (py_ge x c).
Proof.
  unfold py_lt, py_ge. intros Hx Hc.
  assert (X : xnum_of x <> XNan).
  { destruct x as [z|[]]; cbn; try discriminate. }
  assert (C : xnum_of c <> XNan).
  { destruct c as [z|[]]; cbn; try discriminate. }
  destruct (xnum_of x) as [|s1|m1 e1], (xnum_of c) as [|s2|m2 e2];
    try congruence; cbn [xcompare].
  - now destruct s1, s2.
  - now destruct s1.
  - now destruct s2.
  - destruct (e1 <=? e2);
      match goal with |- context [(?a ?= ?b)] => now destruct (a ?= b) end.
Qed.

Lemma xcompare_fin_ge (m1 e1 m2 e2 : Z) :
  match xcompare (XFin m1 e1) (XFin m2 e2) with
  | Some (Gt | Eq) => true
  | _ => false
  end = true <->
  (e1 <= e2 /\ m2 * 2 ^ (e2 - e1) <= m1) \/ (e2 < e1 /\ m2 <= m1 * 2 ^ (e1 - e2)).
Proof.
  cbn [xcompare]. destruct (Z.leb_spec e1 e2) as [L|L].
  - destruct (Z.compare_spec m1 (m2 * 2 ^ (e2 - e1))) as [C|C|C];
      split; intros H; try discriminate; try reflexivity; try lia.
  - destruct (Z.compare_spec (m1 * 2 ^ (e1 - e2)) m2) as [C|C|C];
      split; intros H; try discriminate; try reflexivity; try lia.
Qed.

(** A number that is at least 99.9 is at least 50. *)
Lemma ge_99_9_ge_50 (x : pynum) :
  py_ge x (PyFloat lit_99_9) = true -> py_ge x (PyInt 50) = true.
Proof.
  unfold py_ge. cbn [xnum_of lit_99_9 cond_Zopp].
  destruct (xnum_of x) as [|s|m e]; [discriminate | now destruct s |].
  rewrite !xcompare_fin_ge. intros H.
  assert (P46 : 2 ^ 46 = 70368744177664) by reflexivity.
  destruct (Z.le_gt_cases e (-46)) as [L|L].
  - left. split; [lia|]. destruct H as [[_ H]|[H _]]; [|lia].
    replace (0 - e) with (46 + (-46 - e)) by lia.
    rewrite Z.pow_add_r, P46 by lia.
    pose proof (Z.pow_pos_nonneg 2 (-46 - e) ltac:(lia) ltac:(lia)). nia.
  - destruct H as [[H _]|[_ H]]; [lia|].
    destruct (Z.le_gt_cases e 0) as [L0|L0].
    + left. split; [lia|].
      assert (E : 2 ^ (e - -46) * 2 ^ (0 - e) = 70368744177664).
      { rewrite <- Z.pow_add_r by lia. replace (e - -46 + (0 - e)) with 46 by lia.
        exact P46. }
      pose proof (Z.pow_pos_nonneg 2 (e - -46) ltac:(lia) ltac:(lia)).
      pose proof (Z.pow_pos_nonneg 2 (0 - e) ltac:(lia) ltac:(lia)). nia.
    + right. split; [lia|].
      replace (e - -46) with ((e - 0) + 46) in H by lia.
      rewrite Z.pow_add_r, P46 in H by lia.
      pose proof (Z.pow_pos_nonneg 2 (e - 0) ltac:(lia) ltac:(lia)). nia.
Qed.
End FloatFacts.

(** ** Sorting by name *)

Section SortFacts.
Context {V : Type}.
Implicit Types (x y : string * V) (l : list (string * V)).

Lemma str_ltb_trans (a b c : string) :
  String.ltb a b = true -> String.ltb b c = true -> String.ltb a c = true.
Proof.
  unfold String.ltb. intros H1 H2.
  destruct (String.compare a b) eqn:E1; try discriminate.
  destruct (String.compare b c) eqn:E2; try discriminate.
  apply OrderedTypeEx.String_as_OT.cmp_lt in E1, E2.
  pose proof (OrderedTypeEx.String_as_OT.lt_trans _ _ _ E1 E2) as T.
  apply OrderedTypeEx.String_as_OT.cmp_lt in T.
  unfold OrderedTypeEx.String_as_OT.cmp in T. now rewrite T.
Qed.

Lemma str_ltb_total (a b : string) :
  String.ltb a b = false -> a <> b -> String.ltb b a = true.
Proof.
  unfold String.ltb. rewrite (String.compare_antisym b a).
  destruct (String.compare a b) eqn:E; try discriminate; intros _ N.
  - now apply String.compare_eq_iff in E.
  - reflexivity.
Qed.

Lemma str_ltb_irrefl (a : string) : String.ltb a a = false.
Proof.
  unfold String.ltb. pose proof (String.compare_antisym a a) as H.
  destruct (String.compare a a); try reflexivity; discriminate.
Qed.

Lemma insert_item_perm x l : Permutation (insert_item x l) (x :: l).
Proof.
  induction l as [|y l IH]; cbn [insert_item]; [reflexivity|].
  destruct (String.ltb (fst y) (fst x)); [|reflexivity].
  rewrite IH. apply perm_swap.
Qed.

Lemma sorted_perm l : Permutation (sorted l) l.
Proof.
  induction l as [|x l IH]; cbn [sorted]; [reflexivity|].
  rewrite insert_item_perm. now constructor.
Qed.

Lemma insert_item_sorted x l :
  ~ In (fst x) (keys l) ->
  StronglySorted name_lt l -> StronglySorted name_lt (insert_item x l).
Proof.
  induction l as [|y l IH]; intros N S; cbn [insert_item].
  - repeat constructor.
  - inversion S as [|? ? S' F]; subst.
    cbn [keys map] in N.
    destruct (String.ltb (fst y) (fst x)) eqn:E.
    + constructor.
      * apply IH; [|exact S']. intros I. apply N. now right.
      * apply Forall_forall. intros z Hz.
        apply (Permutation_in _ (insert_item_perm x l)) in Hz.
        destruct Hz as [<-|Hz]; [exact E|].
        now apply (proj1 (Forall_forall _ _) F).
    + assert (L : name_lt x y).
      { apply str_ltb_total; [exact E|]. intros Q. apply N. now left. }
      constructor; [exact S|]. constructor; [exact L|].
      apply Forall_forall. intros z Hz.
      apply (str_ltb_trans _ (fst y)); [exact L|].
      now apply (proj1 (Forall_forall _ _) F).
Qed.

(** Items with distinct names come out in ascending order of name. *)
Lemma sorted_sorted l : dict_wf l -> StronglySorted name_lt (sorted l).
Proof.
  unfold dict_wf. induction l as [|x l IH]; intros W; cbn [sorted].
  - constructor.
  - inversion W as [|? ? N W']; subst. apply insert_item_sorted.
    + intros I. apply N. unfold keys in *.
      apply in_map_iff in I as (z & Ez & Iz).
      apply (Permutation_in _ (sorted_perm l)) in Iz.
      rewrite <- Ez. now apply in_map.
    + now apply IH.
Qed.

Lemma filter_sorted (R : string * V -> string * V -> Prop)
      (p : string * V -> bool) l :
  StronglySorted R l -> StronglySorted R (filter p l).
Proof.
  induction 1 as [|x l S IH F]; cbn [filter]; [constructor|].
  destruct (p x); [|exact IH]. constructor; [exact IH|].
  apply Forall_forall. intros z Hz. apply filter_In in Hz as [Hz _].
  now apply (proj1 (Forall_forall _ _) F).
Qed.
End SortFacts.

(** ** The three buckets *)

Section BucketFacts.
Implicit Types (l : list (string * field_result)) (st : field_result).

Lemma bucket_cases st :
  ordered_num (non_empty_pct st) = true ->
  (in_always st = true /\ in_sometimes st = false /\ in_rarely st = false)
  \/ (in_always st = false /\ in_sometimes st = true /\ in_rarely st = false)
  \/ (in_always st = false /\ in_sometimes st = false /\ in_rarely st = true).
Proof.
  intros O. unfold in_always, in_sometimes, in_rarely.
  rewrite !py_lt_not_ge by (exact O || reflexivity).
  destruct (py_ge (non_empty_pct st) (PyFloat lit_99_9)) eqn:A.
  - rewrite (ge_99_9_ge_50 _ A). now left.
  - destruct (py_ge (non_empty_pct st) (PyInt 50)); [right; left | right; right];
      now repeat split.
Qed.

(** The loop of the categoriser fills each bucket with the items of
    its range, in the order of the list it runs over. *)
Lemma categorize_fold l (a s r : bucket) :
  Forall (fun it => ordered_num (non_empty_pct (snd it)) = true) l ->
  fold_left categorize_step l (a, s, r)
  = (a ++ filter (fun it => in_always (snd it)) l,
     s ++ filter (fun it => in_sometimes (snd it)) l,
     r ++ filter (fun it => in_rarely (snd it)) l).
Proof.
  intros O. revert a s r. induction O as [|it l Oit _ IH]; intros a s r.
  - cbn. now rewrite !app_nil_r.
  - cbn [fold_left filter]. unfold categorize_step at 2.
    destruct (bucket_cases _ Oit) as [(A & S & R)|[(A & S & R)|(A & S & R)]];
      rewrite A, S, R; unfold in_always in A.
    + rewrite A, IH, <- app_assoc. reflexivity.
    + unfold in_sometimes in S. apply andb_true_iff in S as [S _].
      rewrite A, S, IH, <- app_assoc. reflexivity.
    + unfold in_rarely in R.
      rewrite py_lt_not_ge in R by (exact Oit || reflexivity).
      apply negb_true_iff in R.
      rewrite A, R, IH, <- app_assoc. reflexivity.
Qed.

Lemma sorted_in {V : Type} (d : dict V) (f : string) (v : V) :
  dict_wf d -> (In (f, v) (sorted d) <-> dict_get f d = Some v).
Proof.
  intros W. split.
  - intros I. apply dict_in_get; [exact W|].
    now apply (Permutation_in _ (sorted_perm d)).
  - intros G. apply (Permutation_in _ (Permutation_sym (sorted_perm d))).
    now apply dict_get_in.
Qed.
End BucketFacts.

(** ** Every entry of the result *)

Section EntryFacts.
Variable set_iter : list string -> list string.

(** An entry of the first loop has been present at least once. *)
Lemma tally_entry (elements : list (dict string)) (k : string) (st : field_stat) :
  dict_get k (tally elements) = Some st ->
  (1 <= st_present st)%Z /\ (0 <= st_non_empty st)%Z.
Proof.
  intros G.
  assert (H : dict_has k (tally elements) = true).
  { unfold dict_has. now rewrite G. }
  assert (E : dd_get k (tally elements) = st).
  { unfold dd_get. now rewrite G. }
  rewrite tally_concat in H, E.
  rewrite fold_count_has in H. rewrite fold_count_get in E.
  cbn [dict_has dict_get orb] in H.
  apply negb_true_iff, Nat.eqb_neq in H.
  subst st. rewrite bump_fold_present, bump_fold_non_empty.
  cbn [dd_get dict_get default_stat st_present st_non_empty]. lia.
Qed.

Lemma analyze_fields_total (elements : list (dict string)) :
  exists results, analyze_fields set_iter elements = Some results.
Proof.
  destruct elements as [|d elements].
  - now exists [].
  - eexists. apply analyze_fields_eq. discriminate.
Qed.

(** The percentage of an entry is never a NaN. *)
Lemma analyze_fields_ordered (elements : list (dict string))
      (results : dict field_result) :
  analyze_fields set_iter elements = Some results ->
  Forall (fun it => ordered_num (non_empty_pct (snd it)) = true) results.
Proof.
  intros A. destruct elements as [|d0 elements].
  - injection A as <-. constructor.
  - rewrite analyze_fields_eq in A by discriminate. injection A as <-.
    apply Forall_forall. intros [k r] I.
    apply in_map_iff in I as ([k' st] & E & I). injection E as -> <-.
    apply (dict_in_get _ _ _ (tally_wf _)) in I.
    apply tally_entry in I as [P Q].
    cbn [snd non_empty_pct finalize].
    destruct (st_present st >? 0)%Z; [|reflexivity].
    cbn [ordered_num]. apply negb_true_iff, percent_not_nan; [exact Q|].
    cbn [List.length]. lia.
Qed.

Lemma analyze_fields_wf (elements : list (dict string))
      (results : dict field_result) :
  analyze_fields set_iter elements = Some results -> dict_wf results.
Proof.
  intros A. destruct elements as [|d0 elements].
  - injection A as <-. constructor.
  - rewrite analyze_fields_eq in A by discriminate. injection A as <-.
    unfold dict_wf. rewrite keys_map. apply tally_wf.
Qed.
End EntryFacts.

(** * The claims *)

(** C1. On the scenario document, analysed for [Trade]: three
    occurrences; [id] is present in 3 and non-empty in 3, its non-empty
    percentage is the float 100.0 and it lands in the Always bucket;
    [qty] is present in 2 and non-empty in 1, its non-empty percentage
    is 1/3*100 in binary64, printed as 33.3, and it lands in the Rarely
    bucket. This holds for every iteration order of the sample sets. *)
Theorem scenario_trade_presence (set_iter : list string -> list string) :
  let elements := extract_elements scenario_doc "Trade" in
  exists results id_stats qty_stats,
    List.length elements = 3
    /\ analyze_fields set_iter elements = Some results
    /\ dict_get "id" results = Some id_stats
    /\ present id_stats = 3%Z
    /\ non_empty id_stats = 3%Z
    /\ non_empty_pct id_stats = PyFloat (float_of_int 100)
    /\ format_5_1f (non_empty_pct id_stats) = "100.0"
    /\ dict_get "qty" results = Some qty_stats
    /\ present qty_stats = 2%Z
    /\ non_empty qty_stats = 1%Z
    /\ non_empty_pct qty_stats = PyFloat (percent 1 3)
    /\ format_5_1f (non_empty_pct qty_stats) = " 33.3"
    /\ categorize_fields results 3
       = ([("id", id_stats)], [], [("qty", qty_stats)]).
Proof.
  cbv zeta. do 3 eexists.
  split; [vm_compute; reflexivity|].
  split; [vm_compute; reflexivity|].
  split; [vm_compute; reflexivity|].
  repeat split; vm_compute; reflexivity.
Qed.

(** C3. For a sequence of occurrence mappings of length [total] and an
    attribute observed in [N] of them, [K] of which carry a value that
    is non-empty once stripped, the aggregator returns a result whose
    entry for the attribute has [present = N],
    [present_pct = N / total * 100], [non_empty = K] and
    [non_empty_pct = K / total * 100], the percentages being computed in
    binary64 arithmetic. *)
Theorem aggregator_counts (set_iter : list string -> list string)
        (elements : list (dict string)) (field : string) :
  Forall dict_wf elements ->
  occ_present field elements <> 0 ->
  let total := Z.of_nat (List.length elements) in
  let N := Z.of_nat (occ_present field elements) in
  let K := Z.of_nat (occ_non_empty field elements) in
  exists results st,
    analyze_fields set_iter elements = Some results
    /\ dict_get field results = Some st
    /\ present st = N
    /\ present_pct st = PyFloat (percent N total)
    /\ non_empty st = K
    /\ non_empty_pct st = PyFloat (percent K total).
Proof.
  intros W Obs total N K.
  assert (NE : elements <> []).
  { intros ->. now apply Obs. }
  pose proof (tally_has elements field W) as H.
  pose proof (tally_stat elements field W) as S.
  apply Nat.eqb_neq in Obs as Obs'. rewrite Obs' in H. cbn [negb] in H.
  unfold dict_has in H. unfold dd_get in S.
  destruct (dict_get field (tally elements)) as [stat|] eqn:G; [|discriminate].
  eexists. exists (finalize set_iter total stat).
  split; [apply (analyze_fields_eq set_iter elements NE)|].
  split; [rewrite dict_get_map, G; reflexivity|].
  subst stat. cbn [finalize present present_pct non_empty non_empty_pct
                   st_present st_non_empty].
  fold N K. repeat split.
  assert (P : (N >? 0)%Z = true) by (apply Z.gtb_lt; unfold N; lia).
  now rewrite P.
Qed.

Lemma aggregator_counts_witness :
  let elements := [[("id", "1"); ("qty", "10")]; [("id", "2"); ("qty", " ")];
                   [("id", "3")]] in
  Forall dict_wf elements
  /\ occ_present "qty" elements <> 0
  /\ exists results st,
       analyze_fields (fun l => l) elements = Some results
       /\ dict_get "qty" results = Some st
       /\ present st = 2%Z
       /\ present_pct st = PyFloat (percent 2 3)
       /\ non_empty st = 1%Z
       /\ non_empty_pct st = PyFloat (percent 1 3).
Proof.
  cbv zeta.
  assert (W : Forall (@dict_wf string)
                [[("id", "1"); ("qty", "10")]; [("id", "2"); ("qty", " ")];
                 [("id", "3")]]).
  { repeat constructor; cbn; intuition discriminate. }
  split; [exact W|]. split; [discriminate|].
  exact (aggregator_counts (fun l => l) _ "qty" W ltac:(discriminate)).
Defined.

(** C8. On a non-empty input every entry of the result has
    [1 <= present <= total] and [0 <= non_empty <= present], and its
    [non_empty_pct] is the float computed from the counts: the fallback
    of the guard on [present], the integer 0, is never the value. *)
Theorem counts_bounded (set_iter : list string -> list string)
        (elements : list (dict string)) :
  Forall dict_wf elements ->
  elements <> [] ->
  let total := Z.of_nat (List.length elements) in
  exists results,
    analyze_fields set_iter elements = Some results
    /\ forall field st,
         dict_get field results = Some st ->
         (1 <= present st <= total)%Z
         /\ (0 <= non_empty st <= present st)%Z
         /\ (present st >? 0)%Z = true
         /\ non_empty_pct st = PyFloat (percent (non_empty st) total).
Proof.
  intros W NE total. eexists. split; [apply (analyze_fields_eq set_iter _ NE)|].
  intros field st G. rewrite dict_get_map in G.
  pose proof (tally_has elements field W) as H.
  pose proof (tally_stat elements field W) as S.
  unfold dict_has in H. unfold dd_get in S.
  destruct (dict_get field (tally elements)) as [stat|] eqn:E; [|discriminate].
  cbn in G. injection G as <-. subst stat.
  symmetry in H. apply negb_true_iff, Nat.eqb_neq in H.
  pose proof (occ_present_le field elements).
  pose proof (occ_non_empty_le field elements).
  cbn [finalize present non_empty non_empty_pct st_present st_non_empty].
  assert (P : (Z.of_nat (occ_present field elements) >? 0)%Z = true)
    by (apply Z.gtb_lt; lia).
  rewrite P. unfold total. repeat split; lia.
Qed.

Lemma counts_bounded_witness :
  let elements := extract_elements scenario_doc "Trade" in
  Forall dict_wf elements
  /\ elements <> []
  /\ exists results,
       analyze_fields (fun l => l) elements = Some results
       /\ forall field st,
            dict_get field results = Some st ->
            (1 <= present st <= 3)%Z
            /\ (0 <= non_empty st <= present st)%Z
            /\ (present st >? 0)%Z = true
            /\ non_empty_pct st = PyFloat (percent (non_empty st) 3).
Proof.
  cbv zeta. split; [apply extract_elements_wf|].
  split; [now vm_compute|].
  exact (counts_bounded (fun l => l) (extract_elements scenario_doc "Trade")
           (extract_elements_wf _ _) ltac:(now vm_compute)).
Defined.

(** C4, as stated, fails: the samples are the head of the set in its
    iteration order, which need not be the order of first occurrence.
    With the values x then y and a set iterated in reverse, the samples
    are y, x. *)
Lemma samples_not_first_seen :
  let set_iter := @rev string in
  let elements := [[("a", "x")]; [("a", "y")]] in
  iteration_order set_iter
  /\ exists results st,
       analyze_fields set_iter elements = Some results
       /\ dict_get "a" results = Some st
       /\ samples st = ["y"; "x"]
       /\ firstn 3 (collected "a" elements) = ["x"; "y"]
       /\ samples st <> firstn 3 (collected "a" elements).
Proof.
  cbv zeta. split.
  - intros l. symmetry. apply Permutation_rev.
  - do 2 eexists.
    split; [vm_compute; reflexivity|].
    split; [vm_compute; reflexivity|].
    split; [vm_compute; reflexivity|].
    split; [vm_compute; reflexivity|].
    vm_compute. discriminate.
Qed.

(** C4, amended. For every entry of the result, the values collected
    for the attribute are the first five distinct non-empty values in
    the order of their first occurrence, each truncated to its first 50
    characters and compared after truncation; the samples are the first
    three of the collected values in the iteration order of the set:
    at most three, pairwise distinct, each one a collected value. *)
Theorem samples_of_collected (set_iter : list string -> list string)
        (elements : list (dict string)) (results : dict field_result)
        (field : string) (st : field_result) :
  iteration_order set_iter ->
  Forall dict_wf elements ->
  analyze_fields set_iter elements = Some results ->
  dict_get field results = Some st ->
  let values := collected field elements in
  values = firstn 5 (first_seen (truncated_values field elements))
  /\ NoDup values
  /\ List.length values <= 5
  /\ samples st = firstn 3 (set_iter values)
  /\ List.length (samples st) = Nat.min 3 (List.length values)
  /\ NoDup (samples st)
  /\ forall s, In s (samples st) -> In s values.
Proof.
  intros O W A G values.
  assert (NE : elements <> []).
  { intros ->. cbn in A. injection A as <-. discriminate. }
  destruct (analyze_fields_get set_iter _ _ _ _ NE A G) as [_ ->].
  rewrite (tally_stat elements field W).
  cbn [finalize samples st_sample_values]. fold values.
  assert (ND : NoDup values).
  { unfold values, collected.
    pose proof (first_seen_nodup (truncated_values field elements)) as N.
    rewrite <- (firstn_skipn 5 (first_seen (truncated_values field elements))) in N.
    now apply NoDup_app_remove_r in N. }
  assert (NDI : NoDup (set_iter values)).
  { apply (Permutation_NoDup (Permutation_sym (O values)) ND). }
  split; [reflexivity|]. split; [exact ND|].
  split; [apply firstn_le_length|].
  split; [reflexivity|].
  split; [rewrite length_firstn; now rewrite (Permutation_length (O values))|].
  split.
  - rewrite <- (firstn_skipn 3 (set_iter values)) in NDI.
    now apply NoDup_app_remove_r in NDI.
  - intros s I. apply (Permutation_in _ (O values)).
    rewrite <- (firstn_skipn 3 (set_iter values)). apply in_or_app. now left.
Qed.

Lemma samples_of_collected_witness :
  let set_iter := @rev string in
  let elements := [[("a", "x")]; [("a", "y")]; [("a", "x")]] in
  let st := mkResult 3 (PyFloat (percent 3 3)) 3 (PyFloat (percent 3 3))
                     ["y"; "x"] in
  iteration_order set_iter
  /\ Forall dict_wf elements
  /\ analyze_fields set_iter elements = Some [("a", st)]
  /\ dict_get "a" [("a", st)] = Some st
  /\ let values := collected "a" elements in
     values = firstn 5 (first_seen (truncated_values "a" elements))
     /\ NoDup values
     /\ List.length values <= 5
     /\ samples st = firstn 3 (set_iter values)
     /\ List.length (samples st) = Nat.min 3 (List.length values)
     /\ NoDup (samples st)
     /\ forall s, In s (samples st) -> In s values.
Proof.
  cbv zeta.
  assert (O : iteration_order (@rev string)).
  { intros l. symmetry. apply Permutation_rev. }
  assert (W : Forall (@dict_wf string)
                [[("a", "x")]; [("a", "y")]; [("a", "x")]]).
  { repeat constructor; cbn; intuition discriminate. }
  split; [exact O|]. split; [exact W|].
  split; [vm_compute; reflexivity|]. split; [reflexivity|].
  refine (samples_of_collected (@rev string) _ _ "a" _ O W _ _);
    vm_compute; reflexivity.
Defined.

(** C5. When the extractor finds no occurrence of an element type, the
    aggregator returns the empty map; the aggregator raises on no input
    at all, so no division by zero occurs; and the report of the type
    is its header followed by the line that counts 0 elements, with no
    category section. *)
Theorem zero_occurrences_report (set_iter : list string -> list string)
        (xml_content elem_type : string) :
  extract_elements xml_content elem_type = [] ->
  analyze_fields set_iter (extract_elements xml_content elem_type) = Some []
  /\ (forall elements, analyze_fields set_iter elements <> None)
  /\ report_type set_iter xml_content elem_type
     = (type_header elem_type
          ++ [("Found 0 " ++ elem_type ++ " elements")%string],
        Some tt).
Proof.
  intros E. split; [now rewrite E|]. split.
  - intros elements.
    destruct (analyze_fields_total set_iter elements) as [r ->]. discriminate.
  - unfold report_type. rewrite E. reflexivity.
Qed.

Lemma zero_occurrences_report_witness :
  extract_elements scenario_doc "CorporateAction" = []
  /\ analyze_fields (fun l => l)
       (extract_elements scenario_doc "CorporateAction") = Some []
  /\ (forall elements, analyze_fields (fun l => l) elements <> None)
  /\ report_type (fun l => l) scenario_doc "CorporateAction"
     = (type_header "CorporateAction"
          ++ ["Found 0 CorporateAction elements"],
        Some tt).
Proof.
  split; [vm_compute; reflexivity|].
  apply (zero_occurrences_report (fun l => l) scenario_doc "CorporateAction").
  vm_compute. reflexivity.
Defined.

Section PartitionFacts.
Lemma in_keys_bucket (results : dict field_result)
      (p : string * field_result -> bool) (f : string) :
  dict_wf results ->
  In f (keys (filter p (sorted results)))
  <-> exists st, dict_get f results = Some st /\ p (f, st) = true.
Proof.
  intros W. unfold keys. rewrite in_map_iff. split.
  - intros ([f' st] & <- & I). apply filter_In in I as [I P].
    exists st. split; [now apply sorted_in | exact P].
  - intros (st & G & P). exists (f, st). split; [reflexivity|].
    apply filter_In. split; [now apply sorted_in | exact P].
Qed.

Lemma in_bucket (results : dict field_result)
      (p : string * field_result -> bool) (f : string) (st : field_result) :
  dict_wf results ->
  In (f, st) (filter p (sorted results))
  <-> dict_get f results = Some st /\ p (f, st) = true.
Proof. intros W. rewrite filter_In. now rewrite sorted_in. Qed.

Lemma categorize_fields_eq (results : dict field_result) (total : Z) :
  Forall (fun it => ordered_num (non_empty_pct (snd it)) = true)
         (sorted results) ->
  categorize_fields results total
  = (filter (fun it => in_always (snd it)) (sorted results),
     filter (fun it => in_sometimes (snd it)) (sorted results),
     filter (fun it => in_rarely (snd it)) (sorted results)).
Proof.
  intros O. unfold categorize_fields.
  exact (categorize_fold (sorted results) [] [] [] O).
Qed.
End PartitionFacts.

(** C2. The categoriser partitions every result of the aggregator:
    each bucket holds exactly the entries of its range of
    [non_empty_pct] (at least 99.9; at least 50 and below 99.9; below
    50), every attribute name of the result is in exactly one bucket,
    and in each bucket the names ascend strictly. *)
Theorem categorize_partition (set_iter : list string -> list string)
        (elements : list (dict string)) (results : dict field_result)
        (total : Z) :
  analyze_fields set_iter elements = Some results ->
  let '(always, sometimes, rarely) := categorize_fields results total in
  (forall f st, In (f, st) always
                <-> dict_get f results = Some st /\ in_always st = true)
  /\ (forall f st, In (f, st) sometimes
                   <-> dict_get f results = Some st /\ in_sometimes st = true)
  /\ (forall f st, In (f, st) rarely
                   <-> dict_get f results = Some st /\ in_rarely st = true)
  /\ (forall f, In f (keys results) ->
                exactly_one (In f (keys always)) (In f (keys sometimes))
                            (In f (keys rarely)))
  /\ StronglySorted name_lt always
  /\ StronglySorted name_lt sometimes
  /\ StronglySorted name_lt rarely.
Proof.
  intros A.
  pose proof (analyze_fields_wf set_iter _ _ A) as W.
  pose proof (analyze_fields_ordered set_iter _ _ A) as O.
  assert (OS : Forall (fun it => ordered_num (non_empty_pct (snd it)) = true)
                      (sorted results)).
  { apply Forall_forall. intros it I.
    apply (Permutation_in _ (sorted_perm results)) in I.
    now apply (proj1 (Forall_forall _ _) O). }
  rewrite (categorize_fields_eq results total OS).
  split; [intros f st;
          apply (in_bucket results (fun it => in_always (snd it)) f st W)|].
  split; [intros f st;
          apply (in_bucket results (fun it => in_sometimes (snd it)) f st W)|].
  split; [intros f st;
          apply (in_bucket results (fun it => in_rarely (snd it)) f st W)|].
  split; [|repeat split; apply filter_sorted, sorted_sorted, W].
  intros f I. unfold exactly_one.
  rewrite (in_keys_bucket results (fun it => in_always (snd it)) f W).
  rewrite (in_keys_bucket results (fun it => in_sometimes (snd it)) f W).
  rewrite (in_keys_bucket results (fun it => in_rarely (snd it)) f W).
  cbn beta iota delta [snd].
  destruct (dict_get f results) as [st|] eqn:G;
    [|now apply dict_get_none in G].
  assert (Ost : ordered_num (non_empty_pct st) = true).
  { apply dict_get_in in G.
    exact (proj1 (Forall_forall _ _) O _ G). }
  destruct (bucket_cases st Ost) as [(Ha & Hs & Hr)|[(Ha & Hs & Hr)|(Ha & Hs & Hr)]].
  - split; [left; now exists st|].
    repeat split; intros [(x & [= <-] & X) (y & [= <-] & Y)]; congruence.
  - split; [right; left; now exists st|].
    repeat split; intros [(x & [= <-] & X) (y & [= <-] & Y)]; congruence.
  - split; [right; right; now exists st|].
    repeat split; intros [(x & [= <-] & X) (y & [= <-] & Y)]; congruence.
Qed.

Lemma categorize_partition_witness :
  let results :=
    [("id", mkResult 3 (PyFloat (percent 3 3)) 3 (PyFloat (percent 3 3))
                     ["1"; "2"; "3"]);
     ("qty", mkResult 2 (PyFloat (percent 2 3)) 1 (PyFloat (percent 1 3))
                      ["10"])] in
  analyze_fields (fun l => l) (extract_elements scenario_doc "Trade")
  = Some results
  /\ let '(always, sometimes, rarely) := categorize_fields results 3 in
     (forall f st, In (f, st) always
                   <-> dict_get f results = Some st /\ in_always st = true)
     /\ (forall f st, In (f, st) sometimes
                      <-> dict_get f results = Some st /\ in_sometimes st = true)
     /\ (forall f st, In (f, st) rarely
                      <-> dict_get f results = Some st /\ in_rarely st = true)
     /\ (forall f, In f (keys results) ->
                   exactly_one (In f (keys always)) (In f (keys sometimes))
                               (In f (keys rarely)))
     /\ StronglySorted name_lt always
     /\ StronglySorted name_lt sometimes
     /\ StronglySorted name_lt rarely.
Proof.
  cbv zeta. split; [vm_compute; reflexivity|].
  apply (categorize_partition (fun l => l)
           (extract_elements scenario_doc "Trade")).
  vm_compute. reflexivity.
Defined.

Section ClaimHelpers.
Local Open Scope string_scope.

Lemma extract_empty (name : string) : extract_elements "" name = [].
Proof. reflexivity. Qed.

Lemma elements_of_app (a b : list segment) :
  elements_of (a ++ b)%list = (elements_of a ++ elements_of b)%list.
Proof. unfold elements_of. apply flat_map_app. Qed.

Lemma strip_all_space (s : string) : str_all is_space s = true -> strip s = "".
Proof.
  intros H. pose proof (strip_blank s) as B. rewrite H in B.
  now destruct (strip s).
Qed.


(** One dictionary moves each count by at most one. *)
Lemma count_element_step (fs : dict field_stat) (d : dict string) (field : string) :
  dict_wf d ->
  let before := dd_get field fs in
  let after := dd_get field (count_element fs d) in
  (st_present before <= st_present after <= st_present before + 1)%Z
  /\ (st_non_empty before <= st_non_empty after <= st_non_empty before + 1)%Z.
Proof.
  intros W. cbv zeta. unfold count_element.
  rewrite fold_count_get, (values_for_wf field d W).
  destruct (dict_get field d) as [v|]; cbn [fold_left]; [|lia].
  unfold bump. destruct (non_blank v); cbn [st_present st_non_empty]; lia.
Qed.
End ClaimHelpers.

(** * Further properties of the code *)

(** ** What a match is made of *)

Section MatcherSound.
Local Open Scope string_scope.
Context {A : Type}.

Lemma rep_greedy_inv (cls : ascii -> bool) (min : nat) (s : string)
      (k : string -> string -> option A) (r : A) :
  rep_greedy cls min s k = Some r ->
  exists taken rest,
    s = taken ++ rest /\ str_all cls taken = true
    /\ min <= String.length taken /\ k taken rest = Some r.
Proof.
  revert min k. induction s as [|c s IH]; intros min k H.
  - cbn in H. destruct (Nat.eqb_spec min 0) as [->|]; [|discriminate].
    exists "", "". now repeat split.
  - cbn [rep_greedy] in H. cbv zeta in H.
    assert (Stop : (if (min =? 0)%nat then k "" (String c s) else None) = Some r ->
                   exists taken rest,
                     String c s = taken ++ rest /\ str_all cls taken = true
                     /\ min <= String.length taken /\ k taken rest = Some r).
    { destruct (Nat.eqb_spec min 0) as [->|]; [|discriminate].
      intros K. exists "", (String c s). now repeat split. }
    destruct (cls c) eqn:C; [|now apply Stop].
    destruct (rep_greedy cls (pred min) s _) as [x|] eqn:R; [|now apply Stop].
    injection H as ->.
    apply IH in R as (t & rest & -> & T & L & K).
    exists (String c t), rest. cbn [append str_all String.length].
    rewrite C, T. repeat split; [lia | exact K].
Qed.

Lemma rep_lazy_inv (cls : ascii -> bool) (min : nat) (s : string)
      (k : string -> string -> option A) (r : A) :
  rep_lazy cls min s k = Some r ->
  exists taken rest,
    s = taken ++ rest /\ str_all cls taken = true
    /\ min <= String.length taken /\ k taken rest = Some r.
Proof.
  revert min k. induction s as [|c s IH]; intros min k H;
    rewrite rep_lazy_eq in H.
  - destruct (Nat.eqb_spec min 0) as [->|]; [|discriminate].
    destruct (k "" "") eqn:K; [|discriminate]. injection H as ->.
    exists "", "". now repeat split.
  - destruct (if (min =? 0)%nat then k "" (String c s) else None) as [x|] eqn:K.
    + injection H as ->.
      destruct (Nat.eqb_spec min 0) as [->|]; [|discriminate].
      exists "", (String c s). now repeat split.
    + destruct (cls c) eqn:C; [|discriminate].
      apply IH in H as (t & rest & -> & T & L & K').
      exists (String c t), rest. cbn [append str_all String.length].
      rewrite C, T. repeat split; [lia | exact K'].
Qed.

(** Whatever a pattern matches is a prefix of the text it is run on. *)
Lemma run_sound (r : regex) (s : string) (caps : list string)
      (k : string -> string -> list string -> option A) (res : A) :
  run r s caps k = Some res ->
  exists t rest caps', s = t ++ rest /\ k t rest caps' = Some res.
Proof.
  revert s caps k. induction r as [|c|g min cls|r1 IH1 r2 IH2|r1 IH1];
    intros s caps k H; cbn [run] in H.
  - now exists "", s, caps.
  - destruct s as [|c' s]; [discriminate|].
    destruct (Ascii.eqb c c'); [|discriminate].
    now exists (String c' ""), s, caps.
  - destruct g.
    + apply rep_greedy_inv in H as (t & rest & -> & _ & _ & K).
      now exists t, rest, caps.
    + apply rep_lazy_inv in H as (t & rest & -> & _ & _ & K).
      now exists t, rest, caps.
  - apply IH1 in H as (t1 & s1 & c1 & -> & H).
    apply IH2 in H as (t2 & s2 & c2 & -> & H).
    exists (t1 ++ t2), s2, c2. split; [now rewrite str_app_assoc | exact H].
  - apply IH1 in H as (t & rest & c1 & -> & H).
    now exists t, rest, (c1 ++ [t])%list.
Qed.
End MatcherSound.

Section MatchShape.
Local Open Scope string_scope.

Lemma match_at_prefix (r : regex) (s t : string) (caps : list string) :
  match_at r s = Some (t, caps) -> exists rest, s = t ++ rest.
Proof.
  intros H. apply run_sound in H as (t' & rest & c & -> & [= <- _]).
  now exists rest.
Qed.

(** The shape of a match of the element pattern. *)
Lemma element_match_shape (name s t : string) (caps : list string) :
  match_at (element_pattern name) s = Some (t, caps) ->
  exists gap body tail rest,
    s = t ++ rest
    /\ t = "<" ++ name ++ gap ++ body ++ tail ++ "/>"
    /\ caps = [body]
    /\ starts_with_space gap = true
    /\ str_all is_space gap = true
    /\ str_all not_gt body = true
    /\ str_all is_space tail = true.
Proof.
  unfold match_at, element_pattern. intros H. cbn [run] in H.
  destruct s as [|x s]; [discriminate|].
  destruct (Ascii.eqb "<" x) eqn:E; [|discriminate].
  apply Ascii.eqb_eq in E. subst x.
  apply run_lit_inv in H as (s1 & -> & H).
  apply rep_greedy_inv in H as (gap & s2 & -> & Hgap & Lgap & H).
  apply rep_lazy_inv in H as (body & s3 & -> & Hbody & _ & H).
  apply rep_greedy_inv in H as (tail & s4 & -> & Htail & _ & H).
  apply run_lit_inv in H as (rest & -> & H).
  injection H as <- <-.
  exists gap, body, tail, rest.
  split; [cbn [append]; now rewrite !str_app_assoc|].
  split; [reflexivity|]. split; [reflexivity|].
  split; [|now repeat split].
  destruct gap as [|c gap]; [cbn in Lgap; lia|].
  cbn in Hgap |- *. now apply andb_true_iff in Hgap as [-> _].
Qed.

(** The matches of a scan come in the order of the text and do not
    overlap. *)
Lemma scan_ordered (r : regex) (s : string) (p k : nat) :
  StronglySorted
    (fun m1 m2 => m_start m1 + String.length (m_text m1) <= m_start m2
                  /\ m_start m1 < m_start m2)
    (scan r p k s)
  /\ Forall (fun m => p + k <= m_start m) (scan r p k s).
Proof.
  revert p k. induction s as [|c s IH]; intros p [|k]; cbn [scan].
  - destruct (match_at r "") as [[t caps]|]; split; repeat constructor.
    cbn. lia.
  - split; constructor.
  - destruct (match_at r (String c s)) as [[t caps]|].
    + destruct (IH (S p) (pred (String.length t))) as [S1 F1]. split.
      * constructor; [exact S1|]. revert F1. apply Forall_impl.
        intros m Hm. cbn [m_start m_text]. lia.
      * constructor; [cbn; lia|]. revert F1. apply Forall_impl.
        intros m Hm. lia.
    + destruct (IH (S p) 0) as [S1 F1]. split; [exact S1|].
      revert F1. apply Forall_impl. intros m Hm. lia.
  - destruct (IH (S p) k) as [S1 F1]. split; [exact S1|].
    revert F1. apply Forall_impl. intros m Hm. lia.
Qed.
End MatchShape.

(** X1. For every document and every requested name free of pattern
    syntax, each occurrence the extractor matches is a piece of the
    document, at the offset of the match, made of [<], the name, white
    space (at least one character), the captured text (free of [>]),
    white space and the two closing characters; the occurrences come
    in the order of the document and do not overlap, and the extractor
    returns one mapping per occurrence. *)
Theorem occurrences_shape_and_order (doc name : string) :
  plain_name name = true ->
  let matches := finditer (element_pattern name) doc in
  (forall m, In m matches ->
     exists gap body tail rest,
       slice_from (m_start m) doc = (m_text m ++ rest)%string
       /\ m_text m = ("<" ++ name ++ gap ++ body ++ tail ++ "/>")%string
       /\ m_groups m = [body]
       /\ starts_with_space gap = true
       /\ str_all is_space gap = true
       /\ str_all not_gt body = true
       /\ str_all is_space tail = true)
  /\ StronglySorted
       (fun m1 m2 => m_start m1 + String.length (m_text m1) <= m_start m2
                     /\ m_start m1 < m_start m2)
       matches
  /\ List.length (extract_elements doc name) = List.length matches.
Proof.
  intros _ matches. split; [|split].
  - intros m I. apply finditer_start in I.
    apply element_match_shape in I as (gap & body & tail & rest & E & H).
    exists gap, body, tail, rest. now split.
  - apply scan_ordered.
  - unfold extract_elements, findall. now rewrite !length_map.
Qed.

Lemma occurrences_shape_and_order_witness :
  let doc := dq "<Trade a='1' />x<Trade  b='2'/>" in
  let matches := finditer (element_pattern "Trade") doc in
  plain_name "Trade" = true
  /\ (forall m, In m matches ->
        exists gap body tail rest,
          slice_from (m_start m) doc = (m_text m ++ rest)%string
          /\ m_text m = ("<" ++ "Trade" ++ gap ++ body ++ tail ++ "/>")%string
          /\ m_groups m = [body]
          /\ starts_with_space gap = true
          /\ str_all is_space gap = true
          /\ str_all not_gt body = true
          /\ str_all is_space tail = true)
  /\ StronglySorted
       (fun m1 m2 => m_start m1 + String.length (m_text m1) <= m_start m2
                     /\ m_start m1 < m_start m2)
       matches
  /\ List.length (extract_elements doc "Trade") = List.length matches.
Proof.
  cbv zeta. split; [reflexivity|].
  exact (occurrences_shape_and_order (dq "<Trade a='1' />x<Trade  b='2'/>")
           "Trade" eq_refl).
Defined.

Section CountFacts.
Local Open Scope string_scope.

Lemma scan_length_le (name s : string) (p k : nat) :
  List.length (scan (element_pattern name) p k s) <= count_char "<" s.
Proof.
  revert p k. induction s as [|c s IH]; intros p [|k]; cbn [scan].
  - cbn. lia.
  - cbn. lia.
  - cbn [count_char]. destruct (Ascii.eqb c "<") eqn:E.
    + destruct (match_at _ (String c s)) as [[t caps]|]; cbn [List.length].
      * specialize (IH (S p) (pred (String.length t))). lia.
      * specialize (IH (S p) 0). lia.
    + rewrite match_needs_lt by (unfold not_lt; now rewrite E).
      specialize (IH (S p) 0). lia.
  - cbn [count_char]. specialize (IH (S p) k). lia.
Qed.
End CountFacts.

(** X2. For every document and every requested name free of pattern
    syntax, the extractor returns at most as many mappings as the
    document has [<] characters; a document without [<] yields none. *)
Theorem extract_bounded_by_open_angles (doc name : string) :
  plain_name name = true ->
  List.length (extract_elements doc name) <= count_char "<" doc
  /\ (str_all not_lt doc = true -> extract_elements doc name = []).
Proof.
  intros _.
  assert (L : List.length (extract_elements doc name) <= count_char "<" doc).
  { unfold extract_elements, findall, finditer. rewrite !length_map.
    apply scan_length_le. }
  split; [exact L|]. intros H.
  assert (Z : count_char "<" doc = 0).
  { clear L. induction doc as [|c doc IH]; [reflexivity|].
    cbn [str_all] in H. apply andb_true_iff in H as [Hc H].
    cbn [count_char]. unfold not_lt in Hc. apply negb_true_iff in Hc.
    rewrite Hc. now apply IH. }
  rewrite Z in L. destruct (extract_elements doc name); [reflexivity|].
  cbn in L. lia.
Qed.

Lemma extract_bounded_by_open_angles_witness :
  plain_name "Trade" = true
  /\ str_all not_lt "no tags here, only > and / and text" = true
  /\ extract_elements "no tags here, only > and / and text" "Trade" = [].
Proof.
  split; [reflexivity|]. split; [reflexivity|].
  exact (proj2 (extract_bounded_by_open_angles
                  "no tags here, only > and / and text" "Trade" eq_refl)
               eq_refl).
Defined.

(** ** The report as a whole *)

Section ReportFacts.
Variable set_iter : list string -> list string.

Lemma report_type_completes (xml_content elem_type : string) :
  snd (report_type set_iter xml_content elem_type) = Some tt.
Proof.
  unfold report_type.
  destruct (Z.of_nat (List.length (extract_elements xml_content elem_type)) =? 0)%Z;
    [reflexivity|].
  destruct (analyze_fields_total set_iter (extract_elements xml_content elem_type))
    as [results ->].
  now destruct (categorize_fields results _) as [[a s] r].
Qed.

Lemma report_types_all (xml_content : string) (types : list string) :
  report_types set_iter xml_content types
  = (List.concat (map (fun t => fst (report_type set_iter xml_content t)) types),
     Some tt).
Proof.
  induction types as [|t types IH]; [reflexivity|].
  cbn [report_types map List.concat].
  pose proof (report_type_completes xml_content t) as C.
  destruct (report_type set_iter xml_content t) as [out st].
  cbn [snd fst] in *. subst st. now rewrite IH.
Qed.

(** Three exclusive and exhaustive filters split a list. *)
Lemma filter_three_length {X : Type} (p1 p2 p3 : X -> bool) (l : list X) :
  Forall (fun x => (p1 x = true /\ p2 x = false /\ p3 x = false)
                   \/ (p1 x = false /\ p2 x = true /\ p3 x = false)
                   \/ (p1 x = false /\ p2 x = false /\ p3 x = true)) l ->
  List.length (filter p1 l) + List.length (filter p2 l)
  + List.length (filter p3 l) = List.length l.
Proof.
  induction 1 as [|x l Hx _ IH]; [reflexivity|].
  cbn [filter].
  destruct Hx as [(-> & -> & ->)|[(-> & -> & ->)|(-> & -> & ->)]];
    cbn [List.length]; lia.
Qed.

Lemma buckets_length (results : dict field_result) (total : Z) :
  Forall (fun it => ordered_num (non_empty_pct (snd it)) = true) results ->
  let '(always, sometimes, rarely) := categorize_fields results total in
  List.length always + List.length sometimes + List.length rarely
  = List.length results.
Proof.
  intros O.
  assert (OS : Forall (fun it => ordered_num (non_empty_pct (snd it)) = true)
                      (sorted results)).
  { apply Forall_forall. intros it I.
    apply (Permutation_in _ (sorted_perm results)) in I.
    now apply (proj1 (Forall_forall _ _) O). }
  rewrite (categorize_fields_eq results total OS).
  rewrite filter_three_length.
  - apply Permutation_length, sorted_perm.
  - revert OS. apply Forall_impl. intros it Oit. now apply bucket_cases.
Qed.

Lemma print_category_length (name : string) (fields : bucket) (total : Z) :
  List.length (print_category name fields total) = 3 + List.length fields.
Proof. unfold print_category. rewrite length_app, length_map. reflexivity. Qed.
End ReportFacts.

(** X3. For every document, path and iteration order of the sets, the
    run of [main] raises nothing: it prints the line that names the
    file and then, for Trade, OpenPosition, CashTransaction and
    CorporateAction in this order, what the report of that type prints,
    whatever the other types hold. *)
Theorem main_reports_every_type (set_iter : list string -> list string)
        (path xml_content : string) :
  main set_iter path xml_content
  = ((("Reading " ++ path ++ "...")%string
      :: fst (report_type set_iter xml_content "Trade")
      ++ fst (report_type set_iter xml_content "OpenPosition")
      ++ fst (report_type set_iter xml_content "CashTransaction")
      ++ fst (report_type set_iter xml_content "CorporateAction")),
     Some tt).
Proof.
  unfold main. rewrite report_types_all.
  cbn [element_types map List.concat]. now rewrite app_nil_r.
Qed.

(** X4. The report of a type without occurrence has 4 strings; with
    occurrences it has 13 and one more for each attribute name of the
    result of the aggregator: the three sections list every attribute
    once. *)
Theorem report_type_size (set_iter : list string -> list string)
        (xml_content elem_type : string) :
  let elements := extract_elements xml_content elem_type in
  let printed := fst (report_type set_iter xml_content elem_type) in
  (elements = [] -> List.length printed = 4)
  /\ (forall results,
        elements <> [] ->
        analyze_fields set_iter elements = Some results ->
        List.length printed = 13 + List.length results).
Proof.
  cbv zeta. split.
  - intros E. unfold report_type. now rewrite E.
  - intros results NE A. unfold report_type. rewrite A.
    assert (T : (Z.of_nat (List.length (extract_elements xml_content elem_type))
                 =? 0)%Z = false).
    { apply Z.eqb_neq. destruct (extract_elements xml_content elem_type);
        [congruence | cbn [List.length]; lia]. }
    rewrite T.
    pose proof (buckets_length results
                  (Z.of_nat (List.length (extract_elements xml_content elem_type)))
                  (analyze_fields_ordered set_iter _ _ A)) as B.
    destruct (categorize_fields results _) as [[a s] r].
    cbn [fst]. rewrite !length_app, !print_category_length.
    cbn [type_header List.length]. lia.
Qed.

Lemma report_type_size_witness :
  let elements := extract_elements scenario_doc "Trade" in
  let results :=
    [("id", mkResult 3 (PyFloat (percent 3 3)) 3 (PyFloat (percent 3 3))
                     ["1"; "2"; "3"]);
     ("qty", mkResult 2 (PyFloat (percent 2 3)) 1 (PyFloat (percent 1 3))
                      ["10"])] in
  elements <> []
  /\ analyze_fields (fun l => l) elements = Some results
  /\ List.length (fst (report_type (fun l => l) scenario_doc "Trade"))
     = 13 + List.length results.
Proof.
  cbv zeta.
  assert (NE : extract_elements scenario_doc "Trade" <> []) by now vm_compute.
  split; [exact NE|]. split; [vm_compute; reflexivity|].
  apply (proj2 (report_type_size (fun l => l) scenario_doc "Trade") _ NE).
  vm_compute. reflexivity.
Defined.

(** ** More on the aggregator *)

Section AggregatorMore.
Variable set_iter : list string -> list string.

Lemma existsb_keys {V : Type} (f : string) (d : dict V) :
  existsb (String.eqb f) (keys d) = dict_has f d.
Proof.
  unfold dict_has. induction d as [|[k v] d IH]; [reflexivity|].
  cbn [keys map fst existsb dict_get]. fold (keys d).
  destruct (String.eqb f k); [reflexivity | exact IH].
Qed.

Lemma keys_update (f : string) (g : field_stat -> field_stat)
      (fs : dict field_stat) :
  keys (dd_update f g fs) = set_add f (keys fs).
Proof.
  unfold dd_update, set_add. now rewrite keys_set, existsb_keys.
Qed.

Lemma set_add_idem (f : string) (l : list string) :
  set_add f (set_add f l) = set_add f l.
Proof.
  unfold set_add at 1.
  assert (E : existsb (String.eqb f) (set_add f l) = true).
  { apply existsb_exists. exists f. split; [|apply String.eqb_refl].
    apply set_add_in. now left. }
  now rewrite E.
Qed.

Lemma keys_count_field (fs : dict field_stat) (item : string * string) :
  keys (count_field fs item) = set_add (fst item) (keys fs).
Proof.
  destruct item as [f v]. unfold count_field. cbn [fst].
  destruct (truthy v && truthy (strip v)).
  - destruct (List.length _ <? 5)%nat;
      now rewrite !keys_update, !set_add_idem.
  - apply keys_update.
Qed.

Lemma keys_fold_count (items : list (string * string)) (fs : dict field_stat) :
  keys (fold_left count_field items fs)
  = fold_left (fun seen v => set_add v seen) (map fst items) (keys fs).
Proof.
  revert fs. induction items as [|it items IH]; intros fs; [reflexivity|].
  cbn [fold_left map]. now rewrite IH, keys_count_field.
Qed.

Lemma keys_tally (elements : list (dict string)) :
  keys (tally elements) = first_seen (map fst (List.concat elements)).
Proof. rewrite tally_concat. apply keys_fold_count. Qed.

Lemma analyze_fields_keys (elements : list (dict string))
      (results : dict field_result) :
  analyze_fields set_iter elements = Some results ->
  keys results = keys (tally elements).
Proof.
  intros A. destruct elements as [|d elements].
  - now injection A as <-.
  - rewrite analyze_fields_eq in A by discriminate. injection A as <-.
    apply keys_map.
Qed.

(** The counts of an entry are those of the first loop. *)
Lemma analyze_fields_counts (elements : list (dict string))
      (results : dict field_result) (f : string) :
  analyze_fields set_iter elements = Some results ->
  present_of results f = st_present (dd_get f (tally elements))
  /\ non_empty_of results f = st_non_empty (dd_get f (tally elements)).
Proof.
  intros A. unfold present_of, non_empty_of. destruct elements as [|d elements].
  - injection A as <-. now split.
  - rewrite analyze_fields_eq in A by discriminate. injection A as <-.
    rewrite dict_get_map. unfold dd_get.
    destruct (dict_get f (tally (d :: elements))); now split.
Qed.

Lemma tally_counts (elements : list (dict string)) (f : string) :
  st_present (dd_get f (tally elements))
  = Z.of_nat (List.length (values_for f (List.concat elements)))
  /\ st_non_empty (dd_get f (tally elements))
     = Z.of_nat (List.length
                   (filter non_blank (values_for f (List.concat elements)))).
Proof.
  rewrite tally_concat, fold_count_get.
  rewrite bump_fold_present, bump_fold_non_empty. now split.
Qed.
End AggregatorMore.

(** X5. The result of the aggregator has one entry for each attribute
    name that occurs in some occurrence and no other entry, and the
    entries are in the order in which the names are first met. *)
Theorem result_keys_in_first_seen_order (set_iter : list string -> list string)
        (elements : list (dict string)) (results : dict field_result) :
  analyze_fields set_iter elements = Some results ->
  keys results = first_seen (map fst (List.concat elements))
  /\ NoDup (keys results)
  /\ forall field,
       In field (keys results)
       <-> exists d, In d elements /\ In field (keys d).
Proof.
  intros A.
  assert (K : keys results = first_seen (map fst (List.concat elements))).
  { rewrite (analyze_fields_keys set_iter _ _ A). apply keys_tally. }
  split; [exact K|]. split; [rewrite K; apply first_seen_nodup|].
  intros field. rewrite K, first_seen_in, in_map_iff. split.
  - intros ([k v] & <- & I). apply in_concat in I as (d & Id & I).
    exists d. split; [exact Id|]. unfold keys.
    change k with (fst (k, v)). now apply in_map.
  - intros (d & Id & I). unfold keys in I.
    apply in_map_iff in I as (it & <- & I).
    exists it. split; [reflexivity|]. apply in_concat. now exists d.
Qed.

Lemma result_keys_in_first_seen_order_witness :
  let elements := extract_elements scenario_doc "Trade" in
  let results :=
    [("id", mkResult 3 (PyFloat (percent 3 3)) 3 (PyFloat (percent 3 3))
                     ["1"; "2"; "3"]);
     ("qty", mkResult 2 (PyFloat (percent 2 3)) 1 (PyFloat (percent 1 3))
                      ["10"])] in
  analyze_fields (fun l => l) elements = Some results
  /\ keys results = first_seen (map fst (List.concat elements))
  /\ NoDup (keys results)
  /\ forall field,
       In field (keys results)
       <-> exists d, In d elements /\ In field (keys d).
Proof.
  cbv zeta. split; [vm_compute; reflexivity|].
  apply (result_keys_in_first_seen_order (fun l => l)
           (extract_elements scenario_doc "Trade")).
  vm_compute. reflexivity.
Defined.

(** X6. Counting is additive: the present count and the non-empty count
    of an attribute over two sequences of occurrences put end to end
    are the sums of its counts over each, an attribute without entry
    counting for 0. *)
Theorem counts_add_over_concatenation (set_iter : list string -> list string)
        (a b : list (dict string)) (ra rb rab : dict field_result)
        (field : string) :
  analyze_fields set_iter a = Some ra ->
  analyze_fields set_iter b = Some rb ->
  analyze_fields set_iter (a ++ b) = Some rab ->
  present_of rab field = (present_of ra field + present_of rb field)%Z
  /\ non_empty_of rab field
     = (non_empty_of ra field + non_empty_of rb field)%Z.
Proof.
  intros Ha Hb Hab.
  destruct (analyze_fields_counts set_iter _ _ field Ha) as [-> ->].
  destruct (analyze_fields_counts set_iter _ _ field Hb) as [-> ->].
  destruct (analyze_fields_counts set_iter _ _ field Hab) as [-> ->].
  destruct (tally_counts a field) as [-> ->].
  destruct (tally_counts b field) as [-> ->].
  destruct (tally_counts (a ++ b) field) as [-> ->].
  rewrite concat_app, values_for_app, filter_app, !length_app. lia.
Qed.

Lemma counts_add_over_concatenation_witness :
  let a := [[("id", "1"); ("qty", "10")]; [("id", "2"); ("qty", "")]] in
  let b := [[("id", "3")]] in
  let ra :=
    [("id", mkResult 2 (PyFloat (percent 2 2)) 2 (PyFloat (percent 2 2))
                     ["1"; "2"]);
     ("qty", mkResult 2 (PyFloat (percent 2 2)) 1 (PyFloat (percent 1 2))
                      ["10"])] in
  let rb :=
    [("id", mkResult 1 (PyFloat (percent 1 1)) 1 (PyFloat (percent 1 1))
                     ["3"])] in
  let rab :=
    [("id", mkResult 3 (PyFloat (percent 3 3)) 3 (PyFloat (percent 3 3))
                     ["1"; "2"; "3"]);
     ("qty", mkResult 2 (PyFloat (percent 2 3)) 1 (PyFloat (percent 1 3))
                      ["10"])] in
  analyze_fields (fun l => l) a = Some ra
  /\ analyze_fields (fun l => l) b = Some rb
  /\ analyze_fields (fun l => l) (a ++ b) = Some rab
  /\ present_of rab "qty" = (present_of ra "qty" + present_of rb "qty")%Z
  /\ non_empty_of rab "qty"
     = (non_empty_of ra "qty" + non_empty_of rb "qty")%Z.
Proof.
  cbv zeta.
  split; [vm_compute; reflexivity|].
  split; [vm_compute; reflexivity|].
  split; [vm_compute; reflexivity|].
  apply (counts_add_over_concatenation (fun l => l)
           [[("id", "1"); ("qty", "10")]; [("id", "2"); ("qty", "")]]
           [[("id", "3")]]);
    vm_compute; reflexivity.
Defined.

Section SampleSource.
Variable set_iter : list string -> list string.

Lemma substring_length_le (n : nat) (s : string) :
  String.length (substring 0 n s) <= n.
Proof.
  revert s. induction n as [|n IH]; intros [|c s]; cbn; try lia.
  specialize (IH s). lia.
Qed.

Lemma in_firstn {X : Type} (n : nat) (l : list X) (x : X) :
  In x (firstn n l) -> In x l.
Proof.
  intros I. rewrite <- (firstn_skipn n l). apply in_or_app. now left.
Qed.

(** Every value collected for an attribute is the truncation of a
    non-blank value of an item of that attribute. *)
Lemma tally_sample_source (elements : list (dict string)) (field s : string) :
  In s (st_sample_values (dd_get field (tally elements))) ->
  exists d v,
    In d elements /\ In (field, v) d /\ non_blank v = true
    /\ s = slice_to 50 v.
Proof.
  rewrite tally_concat, fold_count_get, bump_fold_samples.
  cbn [dd_get dict_get default_stat st_sample_values].
  rewrite collect_first_seen. intros I.
  apply in_firstn, first_seen_in, in_map_iff in I as (v & <- & I).
  apply filter_In in I as [I B]. unfold values_for in I.
  apply in_map_iff in I as ([k v'] & E & I). cbn [snd] in E. subst v'.
  apply filter_In in I as [I K]. cbn [fst] in K.
  apply String.eqb_eq in K. subst k.
  apply in_concat in I as (d & Id & I).
  now exists d, v.
Qed.
End SampleSource.

(** X7. Every sample of an entry of the result is the first 50
    characters of a value that the attribute has in some occurrence and
    that is non-empty once stripped; so a sample never has more than 50
    characters. *)
Theorem samples_are_truncated_values (set_iter : list string -> list string)
        (elements : list (dict string)) (results : dict field_result)
        (field : string) (st : field_result) (s : string) :
  iteration_order set_iter ->
  analyze_fields set_iter elements = Some results ->
  dict_get field results = Some st ->
  In s (samples st) ->
  String.length s <= 50
  /\ exists d v,
       In d elements /\ In (field, v) d
       /\ truthy (strip v) = true
       /\ s = slice_to 50 v.
Proof.
  intros O A G I.
  assert (NE : elements <> []).
  { intros ->. cbn in A. injection A as <-. discriminate. }
  destruct (analyze_fields_get set_iter _ _ _ _ NE A G) as [_ ->].
  cbn [finalize samples] in I.
  apply in_firstn in I. apply (Permutation_in _ (O _)) in I.
  apply tally_sample_source in I as (d & v & Id & Iv & B & ->).
  split; [apply substring_length_le|].
  exists d, v. repeat split; try assumption.
  rewrite non_blank_eq in B. exact B.
Qed.

Lemma samples_are_truncated_values_witness :
  let long :=
    "0123456789012345678901234567890123456789012345678901234567890123" in
  let elements := [[("memo", long)]] in
  let st := mkResult 1 (PyFloat (percent 1 1)) 1 (PyFloat (percent 1 1))
                     ["01234567890123456789012345678901234567890123456789"] in
  let s := "01234567890123456789012345678901234567890123456789" in
  iteration_order (fun l => l)
  /\ analyze_fields (fun l => l) elements = Some [("memo", st)]
  /\ dict_get "memo" [("memo", st)] = Some st
  /\ In s (samples st)
  /\ String.length s <= 50
  /\ exists d v,
       In d elements /\ In ("memo", v) d
       /\ truthy (strip v) = true
       /\ s = slice_to 50 v.
Proof.
  cbv zeta.
  assert (O : iteration_order (fun l => l)) by (intros l; reflexivity).
  split; [exact O|].
  split; [vm_compute; reflexivity|].
  split; [reflexivity|].
  split; [now left|].
  refine (samples_are_truncated_values (fun l => l) _ _ "memo" _ _ O _ _ _).
  - vm_compute. reflexivity.
  - reflexivity.
  - now left.
Defined.

(** ** The extreme percentages *)

Section ExtremePercent.
Local Open Scope Z_scope.

Lemma div_eucl_mul_self (p : positive) (k : Z) :
  Z.div_eucl (Zpos p * k) (Zpos p) = (k, 0).
Proof.
  pose proof (Z.div_mul k (Zpos p) ltac:(lia)) as D.
  pose proof (Z.mod_mul k (Zpos p) ltac:(lia)) as M.
  rewrite (Z.mul_comm k) in D, M.
  unfold Z.div, Z.modulo in D, M.
  destruct (Z.div_eucl (Zpos p * k) (Zpos p)) as [q r]. now subst.
Qed.

Lemma new_location_zero (n : Z) : new_location n 0 = loc_Exact.
Proof. unfold new_location. now destruct (Z.even n). Qed.

(** A count divided by itself is the float 1.0, whatever the count. *)
Lemma div_self_one (p : positive) :
  SFdiv prec emax (exact_int (Zpos p)) (exact_int (Zpos p))
  = S754_finite false 4503599627370496 (-52).
Proof.
  cbn [exact_int SFdiv xorb].
  assert (C : SFdiv_core_binary prec emax (Zpos p) 0 (Zpos p) 0
              = (9007199254740992, -53, loc_Exact)).
  { unfold SFdiv_core_binary.
    replace (Zdigits2 (Zpos p) + 0 - (Zdigits2 (Zpos p) + 0)) with 0 by lia.
    change (Z.min (fexp prec emax 0) (0 - 0)) with (-53).
    change (0 - 0 - -53) with 53.
    cbv zeta iota beta.
    rewrite Z.shiftl_mul_pow2 by lia.
    rewrite div_eucl_mul_self, new_location_zero. reflexivity. }
  rewrite C. vm_compute. reflexivity.
Qed.

Lemma percent_full (n : Z) : 0 < n -> percent n n = float_of_int 100.
Proof.
  intros H. destruct n as [|p|p]; try lia.
  unfold percent. rewrite div_self_one. vm_compute. reflexivity.
Qed.

Lemma percent_none (total : Z) : 0 < total -> percent 0 total = S754_zero false.
Proof.
  intros H. destruct total as [|p|p]; try lia.
  unfold percent, float_mul_int. rewrite float_100. reflexivity.
Qed.
End ExtremePercent.

Section ExtremeBuckets.
Variable set_iter : list string -> list string.

Lemma sorted_ordered (results : dict field_result) :
  Forall (fun it => ordered_num (non_empty_pct (snd it)) = true) results ->
  Forall (fun it => ordered_num (non_empty_pct (snd it)) = true)
         (sorted results).
Proof.
  intros O. apply Forall_forall. intros it I.
  apply (Permutation_in _ (sorted_perm results)) in I.
  exact (proj1 (Forall_forall _ _) O _ I).
Qed.

(** The entry of an attribute that is present, and where it lands. *)
Lemma entry_of_present (elements : list (dict string)) (field : string)
      (total : Z) :
  Forall dict_wf elements ->
  occ_present field elements <> 0 ->
  let st := finalize set_iter (Z.of_nat (List.length elements))
                     (mkStat (Z.of_nat (occ_present field elements))
                             (Z.of_nat (occ_non_empty field elements))
                             (collected field elements)) in
  exists results,
    analyze_fields set_iter elements = Some results
    /\ dict_get field results = Some st
    /\ (in_always st = true ->
        In (field, st) (fst (fst (categorize_fields results total))))
    /\ (in_rarely st = true ->
        In (field, st) (snd (categorize_fields results total))).
Proof.
  intros W P st.
  assert (NE : elements <> []).
  { intros ->. now apply P. }
  pose proof (tally_has elements field W) as H.
  pose proof (tally_stat elements field W) as S.
  apply Nat.eqb_neq in P as P'. rewrite P' in H. cbn [negb] in H.
  unfold dict_has in H. unfold dd_get in S.
  destruct (dict_get field (tally elements)) as [stat|] eqn:G; [|discriminate].
  subst stat.
  pose proof (analyze_fields_eq set_iter elements NE) as A.
  eexists. split; [exact A|].
  assert (D : dict_get field
                (map (fun it => (fst it,
                                 finalize set_iter
                                          (Z.of_nat (List.length elements))
                                          (snd it)))
                     (tally elements)) = Some st).
  { rewrite dict_get_map, G. reflexivity. }
  split; [exact D|].
  pose proof (sorted_ordered _ (analyze_fields_ordered set_iter _ _ A)) as OS.
  pose proof (analyze_fields_wf set_iter _ _ A) as Wr.
  rewrite (categorize_fields_eq _ total OS). cbn [fst snd].
  split; intros B.
  - apply (in_bucket _ (fun it => in_always (snd it)) field st Wr).
    now split.
  - apply (in_bucket _ (fun it => in_rarely (snd it)) field st Wr).
    now split.
Qed.
End ExtremeBuckets.

(** X8. An attribute whose value is non-empty in every occurrence has
    the non-empty percentage 100.0 exactly, whatever the number of
    occurrences, is printed as 100.0 and is put in the Always bucket. *)
Theorem always_when_never_empty (set_iter : list string -> list string)
        (elements : list (dict string)) (field : string) (total : Z) :
  Forall dict_wf elements ->
  elements <> [] ->
  occ_non_empty field elements = List.length elements ->
  exists results st,
    analyze_fields set_iter elements = Some results
    /\ dict_get field results = Some st
    /\ non_empty st = Z.of_nat (List.length elements)
    /\ non_empty_pct st = PyFloat (float_of_int 100)
    /\ format_5_1f (non_empty_pct st) = "100.0"
    /\ In (field, st) (fst (fst (categorize_fields results total))).
Proof.
  intros W NE K.
  pose proof (occ_non_empty_le field elements) as L1.
  pose proof (occ_present_le field elements) as L2.
  assert (T : (0 < Z.of_nat (List.length elements))%Z).
  { destruct elements; [congruence | cbn [List.length]; lia]. }
  assert (P : occ_present field elements = List.length elements) by lia.
  assert (P0 : occ_present field elements <> 0) by lia.
  destruct (entry_of_present set_iter elements field total W P0)
    as (results & A & G & Ba & _).
  rewrite P, K in G, Ba. unfold finalize in G, Ba.
  cbn [st_present st_non_empty st_sample_values] in G, Ba.
  assert (Gt : (Z.of_nat (List.length elements) >? 0)%Z = true)
    by (apply Z.gtb_lt; lia).
  rewrite Gt, (percent_full _ T) in G, Ba.
  exists results. eexists. split; [exact A|]. split; [exact G|].
  split; [reflexivity|]. split; [reflexivity|].
  split; [vm_compute; reflexivity|].
  apply Ba. vm_compute. reflexivity.
Qed.

Lemma always_when_never_empty_witness :
  let elements := [[("id", "1")]; [("id", "2"); ("qty", "")]; [("id", "3")]] in
  Forall dict_wf elements
  /\ elements <> []
  /\ occ_non_empty "id" elements = List.length elements
  /\ exists results st,
       analyze_fields (fun l => l) elements = Some results
       /\ dict_get "id" results = Some st
       /\ non_empty st = Z.of_nat (List.length elements)
       /\ non_empty_pct st = PyFloat (float_of_int 100)
       /\ format_5_1f (non_empty_pct st) = "100.0"
       /\ In ("id", st) (fst (fst (categorize_fields results 3))).
Proof.
  cbv zeta.
  assert (W : Forall (@dict_wf string)
                [[("id", "1")]; [("id", "2"); ("qty", "")]; [("id", "3")]]).
  { repeat constructor; cbn; intuition discriminate. }
  split; [exact W|]. split; [discriminate|]. split; [reflexivity|].
  exact (always_when_never_empty (fun l => l) _ "id" 3 W
           ltac:(discriminate) eq_refl).
Defined.

(** X9. An attribute that is present in some occurrence but whose value
    is never non-empty has the non-empty count 0 and the non-empty
    percentage 0.0, is printed as 0.0 and is put in the Rarely
    bucket. *)
Theorem rarely_when_always_empty (set_iter : list string -> list string)
        (elements : list (dict string)) (field : string) (total : Z) :
  Forall dict_wf elements ->
  occ_present field elements <> 0 ->
  occ_non_empty field elements = 0 ->
  exists results st,
    analyze_fields set_iter elements = Some results
    /\ dict_get field results = Some st
    /\ non_empty st = 0%Z
    /\ non_empty_pct st = PyFloat (S754_zero false)
    /\ format_5_1f (non_empty_pct st) = "  0.0"
    /\ In (field, st) (snd (categorize_fields results total)).
Proof.
  intros W P K.
  assert (T : (0 < Z.of_nat (List.length elements))%Z).
  { destruct elements; [now cbn in P | cbn [List.length]; lia]. }
  destruct (entry_of_present set_iter elements field total W P)
    as (results & A & G & _ & Br).
  rewrite K in G, Br. unfold finalize in G, Br.
  cbn [st_present st_non_empty st_sample_values] in G, Br.
  assert (Gt : (Z.of_nat (occ_present field elements) >? 0)%Z = true)
    by (apply Z.gtb_lt; lia).
  change (Z.of_nat 0) with 0%Z in G, Br.
  rewrite Gt, (percent_none _ T) in G, Br.
  exists results. eexists. split; [exact A|]. split; [exact G|].
  split; [reflexivity|]. split; [reflexivity|].
  split; [vm_compute; reflexivity|].
  apply Br. vm_compute. reflexivity.
Qed.

Lemma rarely_when_always_empty_witness :
  let elements := [[("id", "1"); ("note", "")]; [("id", "2"); ("note", "  ")]] in
  Forall dict_wf elements
  /\ occ_present "note" elements <> 0
  /\ occ_non_empty "note" elements = 0
  /\ exists results st,
       analyze_fields (fun l => l) elements = Some results
       /\ dict_get "note" results = Some st
       /\ non_empty st = 0%Z
       /\ non_empty_pct st = PyFloat (S754_zero false)
       /\ format_5_1f (non_empty_pct st) = "  0.0"
       /\ In ("note", st) (snd (categorize_fields results 2)).
Proof.
  cbv zeta.
  assert (W : Forall (@dict_wf string)
                [[("id", "1"); ("note", "")]; [("id", "2"); ("note", "  ")]]).
  { repeat constructor; cbn; intuition discriminate. }
  split; [exact W|]. split; [discriminate|]. split; [reflexivity|].
  exact (rarely_when_always_empty (fun l => l) _ "note" 2 W
           ltac:(discriminate) eq_refl).
Defined.

(** ** The attributes that are read *)

Section AttrShape.
Local Open Scope string_scope.

(** The shape of a match of the attribute pattern. *)
Lemma attr_match_shape (s t : string) (caps : list string) :
  match_at attr_pattern s = Some (t, caps) ->
  exists k v rest,
    s = t ++ rest
    /\ t = k ++ "=" ++ String dquote (v ++ String dquote "")
    /\ caps = [k; v]
    /\ truthy k = true
    /\ str_all is_word k = true
    /\ str_all not_dquote v = true.
Proof.
  unfold match_at, attr_pattern. intros H. cbn [run] in H.
  apply rep_greedy_inv in H as (k & s1 & -> & Hk & Lk & H).
  destruct s1 as [|c1 s1]; [discriminate|].
  destruct (Ascii.eqb "=" c1) eqn:E1; [|discriminate].
  apply Ascii.eqb_eq in E1. subst c1.
  destruct s1 as [|c2 s1]; [discriminate|].
  destruct (Ascii.eqb dquote c2) eqn:E2; [|discriminate].
  apply Ascii.eqb_eq in E2. subst c2.
  apply rep_greedy_inv in H as (v & s2 & -> & Hv & _ & H).
  destruct s2 as [|c3 s2]; [discriminate|].
  destruct (Ascii.eqb dquote c3) eqn:E3; [|discriminate].
  apply Ascii.eqb_eq in E3. subst c3.
  injection H as <- <-.
  exists k, v, s2.
  split; [cbn [append]; rewrite !str_app_assoc; cbn [append];
          now rewrite !str_app_assoc|].
  split; [reflexivity|]. split; [reflexivity|].
  split; [destruct k; [cbn in Lk; lia | reflexivity]|].
  split; [exact Hk | exact Hv].
Qed.

Lemma dict_set_in {V : Type} (k k' : string) (v v' : V) (d : dict V) :
  In (k, v) (dict_set k' v' d) -> (k = k' /\ v = v') \/ In (k, v) d.
Proof.
  induction d as [|[k2 v2] d IH]; cbn [dict_set].
  - intros [[= <- <-]|[]]. now left.
  - destruct (String.eqb k' k2) eqn:E.
    + apply String.eqb_eq in E. subst k2.
      intros [[= <- <-]|I]; [now left | right; now right].
    + intros [I|I]; [right; now left|].
      destruct (IH I) as [L|R]; [now left | right; now right].
Qed.

Lemma fold_attrs_in (l : list Match) (acc : dict string) (k v : string) :
  In (k, v)
     (fold_left (fun attrs am => dict_set (group am 1) (group am 2) attrs) l acc) ->
  In (k, v) acc
  \/ exists am, In am l /\ group am 1 = k /\ group am 2 = v.
Proof.
  revert acc. induction l as [|a l IH]; intros acc I; [now left|].
  cbn [fold_left] in I. apply IH in I as [I|(am & Ia & E)].
  - apply dict_set_in in I as [[-> ->]|I]; [|now left].
    right. exists a. split; [now left | now split].
  - right. exists am. split; [now right | exact E].
Qed.
End AttrShape.

(** X10. In every mapping the extractor returns, for every document and
    name, each key is a non-empty run of word characters and each value
    holds no quotation mark. *)
Theorem extracted_attributes_well_formed (xml_content element_name : string)
        (d : dict string) (k v : string) :
  In d (extract_elements xml_content element_name) ->
  In (k, v) d ->
  truthy k = true
  /\ str_all is_word k = true
  /\ str_all not_dquote v = true.
Proof.
  intros Id I. unfold extract_elements in Id.
  apply in_map_iff in Id as (text & <- & _).
  unfold parse_attrs in I. apply fold_attrs_in in I as [[]|(am & Ia & <- & <-)].
  apply finditer_start in Ia.
  apply attr_match_shape in Ia as (k & v & rest & _ & _ & G & Hk & Wk & Hv).
  unfold group. rewrite G. cbn [pred nth]. now repeat split.
Qed.

Lemma extracted_attributes_well_formed_witness :
  let doc := dq "<Trade a-b='1' c='x y' =='2' />" in
  let d := [("b", "1"); ("c", "x y")] in
  In d (extract_elements doc "Trade")
  /\ In ("c", "x y") d
  /\ truthy "c" = true
  /\ str_all is_word "c" = true
  /\ str_all not_dquote "x y" = true.
Proof.
  cbv zeta.
  assert (Id : In [("b", "1"); ("c", "x y")]
                  (extract_elements (dq "<Trade a-b='1' c='x y' =='2' />")
                                    "Trade")).
  { vm_compute. left. reflexivity. }
  assert (I : In ("c", "x y") [("b", "1"); ("c", "x y")])
    by (right; left; reflexivity).
  split; [exact Id|]. split; [exact I|].
  exact (extracted_attributes_well_formed _ "Trade" _ "c" "x y" Id I).
Defined.

(** ** Writing attributes and reading them back *)

Section RoundTrip.
Local Open Scope string_scope.

Lemma word_not_space (c : ascii) : is_word c = true -> is_space c = false.
Proof. destruct c as [[] [] [] [] [] [] [] []]; vm_compute; congruence. Qed.

Lemma word_plain (c : ascii) :
  is_word c = true -> not_lt c && not_gt c = true.
Proof. destruct c as [[] [] [] [] [] [] [] []]; vm_compute; congruence. Qed.

Lemma render_attr_eq (k v rest : string) :
  render_attr (k, v) ++ rest
  = k ++ String "=" (String dquote (v ++ String dquote rest)).
Proof.
  unfold render_attr. cbn [fst snd]. rewrite str_app_assoc. cbn [append].
  now rewrite str_app_assoc.
Qed.

(** An attribute that is well formed is matched whole, whatever follows. *)
Lemma attr_match (kv : string * string) (rest : string) :
  attr_ok kv = true ->
  match_at attr_pattern (render_attr kv ++ rest)
  = Some (render_attr kv, [fst kv; snd kv]).
Proof.
  destruct kv as [k v]. unfold attr_ok. cbn [fst snd]. intros H.
  apply andb_prop in H as [H Hv]. apply andb_prop in H as [Hk Wk].
  rewrite render_attr_eq. unfold match_at, attr_pattern. cbn [run].
  apply rep_greedy_first; [exact Wk | reflexivity | |].
  { destruct k; [discriminate | cbn [String.length]; lia]. }
  cbn beta iota. rewrite Ascii.eqb_refl.
  apply rep_greedy_first; [exact Hv | reflexivity | lia |].
  cbn beta iota. rewrite Ascii.eqb_refl.
  unfold render_attr. cbn [fst snd app append]. reflexivity.
Qed.

Lemma attr_needs_word (s : string) :
  match s with String c _ => is_word c | EmptyString => false end = false ->
  match_at attr_pattern s = None.
Proof.
  intros H. destruct (match_at attr_pattern s) as [[t caps]|] eqn:E;
    [|reflexivity].
  apply attr_match_shape in E as (k & v & rest & -> & -> & _ & Hk & Wk & _).
  destruct k as [|c k]; [discriminate|].
  cbn [append] in H. cbn [str_all] in Wk.
  apply andb_prop in Wk as [W _]. congruence.
Qed.

Lemma scan_no_word (a s : string) (p p' : nat) :
  str_all (fun c => negb (is_word c)) a = true ->
  map m_groups (scan attr_pattern p 0 (a ++ s))
  = map m_groups (scan attr_pattern p' 0 s).
Proof.
  revert p p'. induction a as [|c a IH]; intros p p' H.
  - apply scan_groups_pos.
  - cbn [str_all] in H. apply andb_prop in H as [Hc Ha].
    cbn [append]. rewrite scan_cons0, attr_needs_word.
    + now apply IH.
    + now apply negb_true_iff in Hc.
Qed.

Lemma scan_attrs (attrs : list (string * string)) (tail : string) (p : nat) :
  Forall (fun kv => attr_ok kv = true) attrs ->
  str_all (fun c => negb (is_word c)) tail = true ->
  map m_groups (scan attr_pattern p 0 (render_attrs attrs ++ tail))
  = map (fun kv => [fst kv; snd kv]) attrs.
Proof.
  intros F T. revert p. induction F as [|kv attrs Hkv F IH]; intros p.
  - cbn [render_attrs append map].
    rewrite <- (str_app_nil_r tail), (scan_no_word tail "" p 0 T).
    cbn [scan]. now rewrite attr_needs_word.
  - cbn [render_attrs map]. rewrite !str_app_assoc.
    rewrite (scan_no_word " " _ p 0 eq_refl).
    rewrite (scan_match attr_pattern (render_attr kv) _ [fst kv; snd kv] 0 0).
    + f_equal. apply IH.
    + destruct kv as [[|c k] v]; [discriminate | reflexivity].
    + now apply attr_match.
Qed.

Lemma fold_groups (l : list Match) (attrs : list (string * string))
      (acc : dict string) :
  map m_groups l = map (fun kv => [fst kv; snd kv]) attrs ->
  fold_left (fun d am => dict_set (group am 1) (group am 2) d) l acc
  = fold_left (fun d kv => dict_set (fst kv) (snd kv) d) attrs acc.
Proof.
  revert attrs acc. induction l as [|am l IH]; intros [|kv attrs] acc H;
    try discriminate; [reflexivity|].
  cbn [map] in H. injection H as Ha Hl. cbn [fold_left].
  rewrite (IH attrs _ Hl). unfold group. now rewrite Ha.
Qed.

Lemma rstrip_app_blank (a w : string) :
  str_all is_space w = true -> rstrip (a ++ w) = rstrip a.
Proof.
  intros W. induction a as [|c a IH].
  - cbn [append]. now rewrite rstrip_blank.
  - cbn [append rstrip str_all]. rewrite str_all_app, W, andb_true_r.
    now rewrite IH.
Qed.

Lemma rstrip_ends (a : string) (c : ascii) :
  is_space c = false -> rstrip (a ++ String c "") = a ++ String c "".
Proof.
  intros C. induction a as [|x a IH].
  - cbn [append rstrip str_all]. now rewrite C.
  - cbn [append rstrip str_all]. rewrite str_all_app. cbn [str_all].
    rewrite C, IH. cbn [andb]. now rewrite !andb_false_r.
Qed.

Lemma rendered_ends_quote (kv : string * string)
      (attrs : list (string * string)) :
  exists a, render_attr kv ++ render_attrs attrs = a ++ String dquote "".
Proof.
  revert kv. induction attrs as [|kv' attrs IH]; intros [k v].
  - exists (k ++ "=" ++ String dquote v). cbn [render_attrs].
    rewrite str_app_nil_r. unfold render_attr. cbn [fst snd].
    rewrite !str_app_assoc. cbn [append]. now rewrite ?str_app_assoc.
  - destruct (IH kv') as (a & E).
    exists (render_attr (k, v) ++ " " ++ a). cbn [render_attrs].
    rewrite E. now rewrite !str_app_assoc.
Qed.

Lemma strip_rendered (kv : string * string) (attrs : list (string * string)) :
  attr_ok kv = true ->
  strip (render_attrs (kv :: attrs) ++ " ")
  = render_attr kv ++ render_attrs attrs.
Proof.
  intros H. unfold strip. cbn [render_attrs]. rewrite !str_app_assoc.
  rewrite (lstrip_app_space " " _ eq_refl).
  rewrite lstrip_fixed.
  - rewrite <- str_app_assoc, (rstrip_app_blank _ " " eq_refl).
    destruct (rendered_ends_quote kv attrs) as (a & ->).
    now apply rstrip_ends.
  - destruct kv as [[|c k] v]; [discriminate|].
    unfold attr_ok in H. cbn [fst snd truthy str_all andb] in H.
    apply andb_prop in H as [H _]. apply andb_prop in H as [H _].
    cbn [render_attr fst snd append starts_with_space].
    now apply word_not_space.
Qed.

(** The attributes written in a tag are read back. *)
Lemma parse_rendered (attrs : list (string * string)) :
  Forall (fun kv => attr_ok kv = true) attrs ->
  parse_attrs (strip (render_attrs attrs ++ " ")) = dict_of attrs.
Proof.
  intros F. unfold parse_attrs, dict_of. apply fold_groups. unfold finditer.
  destruct F as [|kv attrs Hkv F]; [reflexivity|].
  rewrite strip_rendered by exact Hkv. cbn [map].
  rewrite (scan_match attr_pattern (render_attr kv) _ [fst kv; snd kv] 0 0).
  - f_equal. rewrite <- (str_app_nil_r (render_attrs attrs)).
    now apply scan_attrs.
  - destruct kv as [[|c k] v]; [discriminate | reflexivity].
  - now apply attr_match.
Qed.

Lemma render_attrs_plain (attrs : list (string * string)) :
  Forall (fun kv => attr_written kv = true) attrs ->
  str_all (fun c => not_lt c && not_gt c) (render_attrs attrs) = true.
Proof.
  induction 1 as [|[k v] attrs H F IH]; [reflexivity|].
  unfold attr_written, attr_ok in H. cbn [fst snd] in H.
  apply andb_prop in H as [H Pv]. apply andb_prop in H as [H _].
  apply andb_prop in H as [_ Wk].
  cbn [render_attrs]. unfold render_attr. cbn [fst snd].
  rewrite !str_all_app. cbn [append str_all]. rewrite !str_all_app.
  rewrite (str_all_impl _ _ k word_plain Wk), Pv, IH. reflexivity.
Qed.

Lemma attr_element_spaced (name : string) (attrs : list (string * string)) :
  tag_name name = true ->
  Forall (fun kv => attr_written kv = true) attrs ->
  spaced (attr_element name attrs) = true.
Proof.
  intros N F. unfold spaced, attr_element. cbn [el_name el_rest].
  rewrite N, str_all_app, (render_attrs_plain _ F).
  now destruct attrs.
Qed.

Lemma written_ok (attrs : list (string * string)) :
  Forall (fun kv => attr_written kv = true) attrs ->
  Forall (fun kv => attr_ok kv = true) attrs.
Proof.
  apply Forall_impl. intros kv H. unfold attr_written in H.
  now apply andb_prop in H as [H _].
Qed.

(** Distinct names: the mapping is the list of attributes itself. *)
Lemma dict_of_distinct (attrs : list (string * string)) :
  NoDup (keys attrs) -> dict_of attrs = attrs.
Proof.
  unfold dict_of. intros N.
  enough (G : forall acc,
             NoDup (keys (acc ++ attrs)%list) ->
             fold_left (fun d kv => dict_set (fst kv) (snd kv) d) attrs acc
             = (acc ++ attrs)%list) by (apply (G []); exact N).
  clear N. induction attrs as [|[k v] attrs IH]; intros acc N.
  - now rewrite app_nil_r.
  - cbn [fold_left fst snd]. rewrite dict_set_new.
    + rewrite IH; rewrite <- app_assoc; [reflexivity | exact N].
    + unfold keys in N. rewrite map_app in N. cbn [map fst] in N.
      apply NoDup_remove_2 in N. apply dict_get_none. intros I. apply N.
      apply in_or_app. now left.
Qed.
End RoundTrip.

Section WrittenDocuments.
Variables sep name : string.

Lemma written_doc_spaced (items : list (string * list (string * string))) :
  str_all not_lt sep = true ->
  Forall (fun it => tag_name (fst it) = true
                    /\ Forall (fun kv => attr_written kv = true) (snd it))
         items ->
  Forall (fun g => spaced_segment g = true) (written_doc sep items).
Proof.
  intros S F. induction F as [|it items [N A] F IH]; [constructor|].
  unfold written_doc. cbn [flat_map app]. constructor.
  - now apply attr_element_spaced.
  - constructor; [exact S | exact IH].
Qed.

Lemma written_doc_named (items : list (string * list (string * string))) :
  filter (named name) (elements_of (written_doc sep items))
  = map (fun it => attr_element (fst it) (snd it))
        (filter (fun it => String.eqb (fst it) name) items).
Proof.
  induction items as [|it items IH]; [reflexivity|].
  unfold written_doc, elements_of. cbn [flat_map app filter].
  unfold named at 1. cbn [attr_element el_name].
  destruct (String.eqb (fst it) name); cbn [map]; [f_equal|]; exact IH.
Qed.
End WrittenDocuments.

(** X11. Writing and reading back. For a document made of self-closing
    elements written as the name, then each attribute as a space, its
    name, the equals sign and its value between quotation marks, then a
    space before the end of the tag, each element followed by a text
    without [<]: when the names are tag names, the attribute names are
    non-empty runs of word characters and the values hold no quotation
    mark, [<] or [>], the extractor returns, for a tag name, the elements
    of that name in document order, each as the mapping built from its
    attributes in order, a later value replacing an earlier one of the
    same name. When the attribute names of each such element are
    distinct, it returns the lists of attributes themselves. *)
Theorem written_attributes_read_back (sep name : string)
        (items : list (string * list (string * string))) :
  plain_name name = true ->
  tag_name name = true ->
  str_all not_lt sep = true ->
  Forall (fun it => tag_name (fst it) = true
                    /\ Forall (fun kv => attr_written kv = true) (snd it))
         items ->
  let found := filter (fun it => String.eqb (fst it) name) items in
  extract_elements (render (written_doc sep items)) name
  = map (fun it => dict_of (snd it)) found
  /\ (Forall (fun it => NoDup (keys (snd it))) found ->
      extract_elements (render (written_doc sep items)) name
      = map snd found).
Proof.
  intros _ N S F found.
  assert (E : extract_elements (render (written_doc sep items)) name
              = map (fun it => dict_of (snd it)) found).
  { rewrite (extract_render name _ N (written_doc_spaced sep items S F)).
    rewrite written_doc_named, map_map. apply map_ext_in.
    intros it I. apply filter_In in I as [I _].
    rewrite Forall_forall in F. destruct (F it I) as [_ A].
    cbn [attr_element el_rest]. apply parse_rendered. now apply written_ok. }
  split; [exact E|]. intros D. rewrite E. apply map_ext_in.
  intros it I. rewrite Forall_forall in D. apply dict_of_distinct. now apply D.
Qed.

Lemma written_attributes_read_back_witness :
  let items :=
    [("Trade", [("id", "1"); ("qty", ""); ("id", "2")]);
     ("Order", [("id", "7")]);
     ("Trade", []);
     ("Trade", [("note", "a = b")])] in
  let found := filter (fun it => String.eqb (fst it) "Trade") items in
  plain_name "Trade" = true
  /\ tag_name "Trade" = true
  /\ str_all not_lt newline = true
  /\ Forall (fun it => tag_name (fst it) = true
                       /\ Forall (fun kv => attr_written kv = true) (snd it))
            items
  /\ extract_elements (render (written_doc newline items)) "Trade"
     = map (fun it => dict_of (snd it)) found
  /\ (Forall (fun it => NoDup (keys (snd it))) found ->
      extract_elements (render (written_doc newline items)) "Trade"
      = map snd found).
Proof.
  cbv zeta.
  assert (F : Forall (fun it => tag_name (fst it) = true
                       /\ Forall (fun kv => attr_written kv = true) (snd it))
                [("Trade", [("id", "1"); ("qty", ""); ("id", "2")]);
                 ("Order", [("id", "7")]);
                 ("Trade", []);
                 ("Trade", [("note", "a = b")])]).
  { repeat (constructor; [split; [reflexivity | repeat constructor]|]).
    constructor. }
  split; [reflexivity|]. split; [reflexivity|]. split; [reflexivity|].
  split; [exact F|].
  exact (written_attributes_read_back newline "Trade" _
           eq_refl eq_refl eq_refl F).
Defined.

(** * The extractor on whole documents *)

(** ** One tag *)

Section TagFacts.
Local Open Scope string_scope.

Lemma space_not_gt (c : ascii) : is_space c = true -> not_gt c = true.
Proof.
  intros H. unfold not_gt. destruct (Ascii.eqb c ">") eqn:E; [|reflexivity].
  apply Ascii.eqb_eq in E. subst c. discriminate H.
Qed.

Lemma tag_app (name rs rest : string) :
  ("<" ++ name ++ rs ++ "/>") ++ rest = "<" ++ name ++ rs ++ "/>" ++ rest.
Proof. cbn [append]. now rewrite !str_app_assoc. Qed.

(** The pattern matches a whole tag of the requested name in which
    white space follows the name and no [>] comes before the end, and
    captures the text of the tag stripped, whatever follows the tag. *)
Lemma match_tag (name rs rest : string) :
  starts_with_space rs = true ->
  str_all not_gt rs = true ->
  match_at (element_pattern name) ("<" ++ name ++ rs ++ "/>" ++ rest)
  = Some ("<" ++ name ++ rs ++ "/>", [strip rs]).
Proof.
  intros Hsp Hrs.
  assert (Hg : str_all not_gt (lstrip rs) = true) by now apply str_all_lstrip.
  unfold match_at, element_pattern.
  change ("<" ++ name ++ rs ++ "/>" ++ rest)
    with (String "<" (name ++ rs ++ "/>" ++ rest)).
  cbn [run]. change (Ascii.eqb "<" "<") with true. cbv iota.
  rewrite run_lit.
  rewrite <- (lead_space_lstrip rs) at 1. rewrite str_app_assoc.
  erewrite rep_greedy_first; [reflexivity | apply lead_space_all
    | apply lstrip_close_no_space | | ].
  - destruct rs as [|c rs]; [discriminate|]. simpl in Hsp.
    cbn [lead_space]. rewrite Hsp. simpl. lia.
  - apply (rep_lazy_body (lstrip rs) rest (fun taken => [] ++ [taken])%list
             (fun taken t _ caps =>
                Some ("<" ++ name ++ lead_space rs ++ taken ++ t, caps)) _ Hg).
    cbn [app append]. unfold strip. do 3 f_equal.
    rewrite <- (str_app_assoc (rstrip (lstrip rs))), rstrip_trail_space.
    now rewrite <- (str_app_assoc (lead_space rs)), lead_space_lstrip.
Qed.

(** Conversely a match is such a tag. *)
Lemma match_is_tag (name s t : string) (caps : list string) :
  match_at (element_pattern name) s = Some (t, caps) ->
  exists rs rest,
    s = t ++ rest
    /\ t = "<" ++ name ++ rs ++ "/>"
    /\ caps = [strip rs]
    /\ starts_with_space rs = true
    /\ str_all not_gt rs = true.
Proof.
  intros M. pose proof M as H.
  apply element_match_shape in H
    as (gap & body & tail & rest & E & T & _ & Sg & Ag & Nb & At).
  assert (T' : t = "<" ++ name ++ (gap ++ body ++ tail) ++ "/>").
  { rewrite T. now rewrite !str_app_assoc. }
  assert (S' : starts_with_space (gap ++ body ++ tail) = true).
  { destruct gap; [discriminate | exact Sg]. }
  assert (N' : str_all not_gt (gap ++ body ++ tail) = true).
  { rewrite !str_all_app, Nb.
    rewrite (str_all_impl _ _ gap space_not_gt Ag).
    now rewrite (str_all_impl _ _ tail space_not_gt At). }
  exists (gap ++ body ++ tail), rest.
  split; [exact E|]. split; [exact T'|]. split; [|now split].
  rewrite E in M. rewrite T' in M at 1. rewrite tag_app in M.
  rewrite (match_tag name _ rest S' N') in M. now injection M as _ <-.
Qed.

(** A match at the head of a text is the match at the head of every
    text that extends it. *)
Lemma match_extend (name u s t : string) (caps : list string) :
  match_at (element_pattern name) u = Some (t, caps) ->
  match_at (element_pattern name) (u ++ s) = Some (t, caps).
Proof.
  intros H. apply match_is_tag in H as (rs & rest & -> & -> & -> & S & N).
  rewrite str_app_assoc, tag_app. now apply match_tag.
Qed.

Lemma first_gt (u : string) :
  str_all not_gt u = false ->
  exists x y, u = x ++ String ">" y /\ str_all not_gt x = true.
Proof.
  induction u as [|c u IH]; [discriminate|]. cbn [str_all].
  destruct (not_gt c) eqn:C.
  - cbn [andb]. intros H. destruct (IH H) as (x & y & -> & X).
    exists (String c x), y. cbn [append str_all]. now rewrite C, X.
  - intros _. exists "", u. split; [|reflexivity]. cbn [append]. f_equal.
    unfold not_gt in C. apply negb_false_iff in C. now apply Ascii.eqb_eq in C.
Qed.

Lemma split_first_gt (x x' y y' : string) :
  str_all not_gt x = true -> str_all not_gt x' = true ->
  x ++ String ">" y = x' ++ String ">" y' -> x = x' /\ y = y'.
Proof.
  revert x'. induction x as [|c x IH]; intros [|c' x'] X X' E;
    cbn [append] in E; cbn [str_all] in X, X'.
  - injection E as ->. now split.
  - injection E as <- _. apply andb_prop in X' as [X' _]. discriminate X'.
  - injection E as -> _. apply andb_prop in X as [X _]. discriminate X.
  - injection E as -> E. apply andb_prop in X as [_ X].
    apply andb_prop in X' as [_ X'].
    destruct (IH x' X X' E) as [-> ->]. now split.
Qed.

(** What the pattern matches at the head of a text that holds a [>] does
    not depend on what follows the text: a match ends at the first [>]. *)
Lemma match_local (name u s : string) :
  str_all not_gt name = true ->
  str_all not_gt u = false ->
  match_at (element_pattern name) (u ++ s) = match_at (element_pattern name) u.
Proof.
  intros Hn Hu.
  destruct (match_at (element_pattern name) u) as [[t caps]|] eqn:M.
  - now apply match_extend.
  - destruct (match_at (element_pattern name) (u ++ s)) as [[t caps]|] eqn:M';
      [exfalso | reflexivity].
    apply match_is_tag in M' as (rs & rest & E & -> & _ & S & N).
    destruct (first_gt u Hu) as (x & y & -> & X).
    assert (E' : x ++ String ">" (y ++ s)
                 = ("<" ++ name ++ rs ++ "/") ++ String ">" rest).
    { rewrite str_app_assoc in E. cbn [append] in E |- *. rewrite E.
      now rewrite !str_app_assoc. }
    apply split_first_gt in E' as [-> _]; [|exact X|].
    + assert (Q : ("<" ++ name ++ rs ++ "/") ++ String ">" y
                  = "<" ++ name ++ rs ++ "/>" ++ y).
      { cbn [append]. now rewrite !str_app_assoc. }
      rewrite Q, (match_tag name rs y S N) in M. discriminate M.
    + cbn [append str_all]. rewrite !str_all_app, Hn, N. reflexivity.
Qed.
End TagFacts.

(** ** The scan of any document *)

Section WholeDocuments.
Local Open Scope string_scope.

(** The matches found in a text that leaves no tag open are found
    again, followed by those of what comes after, when the text is
    extended. *)
Lemma scan_closed (name pre s : string) (p p' k : nat) :
  str_all not_gt name = true ->
  tags_closed pre = true ->
  k <= String.length pre ->
  map m_groups (scan (element_pattern name) p k (pre ++ s))
  = (map m_groups (scan (element_pattern name) p k pre)
     ++ map m_groups (scan (element_pattern name) p' 0 s))%list.
Proof.
  intros Hn. revert p k. induction pre as [|c pre IH]; intros p k C L.
  - cbn [String.length] in L. assert (k = 0) as -> by lia.
    cbn [append]. apply scan_groups_pos.
  - cbn [tags_closed] in C. apply andb_prop in C as [C1 C2].
    destruct k as [|k].
    + cbn [append]. rewrite !scan_cons0.
      assert (M : match_at (element_pattern name) (String c (pre ++ s))
                  = match_at (element_pattern name) (String c pre)).
      { destruct (not_lt c) eqn:Lc.
        - now rewrite !match_needs_lt by exact Lc.
        - cbn [orb] in C1. apply negb_true_iff in C1.
          apply (match_local name (String c pre) s Hn).
          cbn [str_all]. rewrite C1. apply andb_false_r. }
      rewrite M.
      destruct (match_at (element_pattern name) (String c pre))
        as [[t caps]|] eqn:M1.
      * cbn [map app m_groups]. f_equal. apply IH; [exact C2|].
        apply match_at_prefix in M1 as (rest & E).
        apply (f_equal String.length) in E.
        rewrite str_length_app in E. cbn [String.length] in E. lia.
      * apply IH; [exact C2 | lia].
    + cbn [append scan]. apply IH; [exact C2|]. cbn [String.length] in L. lia.
Qed.

(** A name followed by white space in the text of a well-formed element
    is the name of the element. *)
Lemma name_at_tag (en name rs tail : string) (c : ascii) (s' : string) :
  tag_name en = true ->
  str_all (fun c => negb (is_space c) && not_gt c) name = true ->
  negb (truthy rs) || starts_with_space rs = true ->
  is_space c = true ->
  en ++ rs ++ "/>" ++ tail = name ++ String c s' ->
  en = name.
Proof.
  unfold tag_name. intros Hen Hname Hrs Hc.
  revert name Hname. induction en as [|u a IH]; intros [|v b] Hname E;
    cbn [append] in E; cbn [str_all] in Hen, Hname.
  - reflexivity.
  - exfalso. apply andb_prop in Hname as [Hv Hb].
    apply andb_prop in Hv as [Sv Gv]. apply negb_true_iff in Sv.
    destruct rs as [|d rs].
    + cbn [append] in E. injection E as <- E.
      destruct b as [|v' b]; cbn [append] in E.
      * injection E as <- _. discriminate Hc.
      * injection E as <- _. cbn [str_all] in Hb.
        apply andb_prop in Hb as [Hb _]. discriminate Hb.
    + cbn [truthy negb orb starts_with_space] in Hrs.
      cbn [append] in E. injection E as <- _. congruence.
  - exfalso. injection E as -> _. apply andb_prop in Hen as [Hu _].
    apply andb_prop in Hu as [Su _]. apply negb_true_iff in Su. congruence.
  - injection E as -> E. apply andb_prop in Hen as [_ Hen].
    apply andb_prop in Hname as [_ Hname]. f_equal. now apply IH.
Qed.

(** A well-formed element of another name is not matched. *)
Lemma match_other (name : string) (e : element) (rest : string) :
  str_all (fun c => negb (is_space c) && not_gt c) name = true ->
  self_closing e = true -> named name e = false ->
  match_at (element_pattern name) (render_element e ++ rest) = None.
Proof.
  intros Hn He Hne.
  destruct (match_at (element_pattern name) (render_element e ++ rest))
    as [m|] eqn:M; [exfalso | reflexivity].
  apply match_starts in M as (c & s' & E & Hc).
  destruct e as [en rs]. unfold render_element, self_closing, named in *.
  cbn [el_name el_rest] in *.
  apply andb_prop in He as [He _]. apply andb_prop in He as [Hen Hrs].
  rewrite tag_app in E. cbn [append] in E. injection E as E.
  apply name_at_tag in E; try assumption.
  subst en. now rewrite String.eqb_refl in Hne.
Qed.

Lemma self_closing_no_lt (e : element) :
  self_closing e = true ->
  str_all not_lt (el_name e ++ el_rest e ++ "/>") = true.
Proof.
  unfold self_closing. intros H. apply andb_prop in H as [H Hrs].
  apply andb_prop in H as [Hn _].
  rewrite !str_all_app, Hrs. cbn [andb].
  rewrite andb_true_r. revert Hn. apply str_all_impl. intros c Hc.
  now apply andb_prop in Hc as [_ Hc].
Qed.

(** On a document of well-formed self-closing elements, those of the
    requested name with white space after the name and no [>] before
    the end of the tag, the scan reports exactly the elements of the
    requested name, each with its attribute text stripped. *)
Lemma scan_well_formed (name : string) (doc : list segment) (p : nat) :
  requestable name = true ->
  Forall (fun g => well_formed_for name g = true) doc ->
  map m_groups (scan (element_pattern name) p 0 (render doc))
  = map (fun e => [strip (el_rest e)])
        (filter (named name) (elements_of doc)).
Proof.
  intros Hn Hdoc. unfold requestable in Hn. apply andb_prop in Hn as [_ Hn].
  revert p. induction Hdoc as [|g doc Hg _ IH]; intros p.
  - reflexivity.
  - cbn [render]. destruct g as [t|e]; cbn [render_segment].
    + rewrite (scan_no_lt name t (render doc) p p Hg). apply IH.
    + cbn [well_formed_for] in Hg. apply andb_prop in Hg as [Hsc Hg].
      cbn [elements_of flat_map app filter]. fold (elements_of doc).
      destruct (named name e) eqn:Ne.
      * cbn [negb orb] in Hg. apply andb_prop in Hg as [Hsp Hgt].
        cbn [map]. unfold named in Ne. apply String.eqb_eq in Ne. subst name.
        pose proof (match_tag (el_name e) (el_rest e) (render doc) Hsp Hgt)
          as M.
        rewrite <- tag_app in M. fold (render_element e) in M.
        rewrite (scan_match _ (render_element e) _ _ p p eq_refl M).
        f_equal. apply IH.
      * pose proof (match_other name e (render doc) Hn Hsc Ne) as M.
        pose proof (self_closing_no_lt e Hsc) as L.
        change (render_element e ++ render doc)
          with (String "<" ((el_name e ++ el_rest e ++ "/>") ++ render doc))
          in M |- *.
        rewrite scan_cons0, M.
        rewrite (scan_no_lt name _ (render doc) (S p) p L). apply IH.
Qed.

(** The extractor on such a document. *)
Lemma extract_well_formed (name : string) (doc : list segment) :
  requestable name = true ->
  Forall (fun g => well_formed_for name g = true) doc ->
  extract_elements (render doc) name
  = map (fun e => parse_attrs (strip (el_rest e)))
        (filter (named name) (elements_of doc)).
Proof.
  intros Hn Hdoc. unfold extract_elements.
  rewrite findall_groups. unfold finditer.
  rewrite (scan_well_formed name doc 0 Hn Hdoc), !map_map. reflexivity.
Qed.

(** The extractor on a text that leaves no tag open, followed by any
    text. *)
Lemma extract_closed (name pre s : string) :
  str_all not_gt name = true ->
  tags_closed pre = true ->
  extract_elements (pre ++ s) name
  = (extract_elements pre name ++ extract_elements s name)%list.
Proof.
  intros Hn C. unfold extract_elements. rewrite !findall_groups.
  unfold finditer.
  rewrite (scan_closed name pre s 0 0 0 Hn C (Nat.le_0_l _)).
  now rewrite !map_app.
Qed.

(** The extractor on a text that starts with a tag of the requested
    name. *)
Lemma extract_tag (name rs rest : string) :
  starts_with_space rs = true ->
  str_all not_gt rs = true ->
  extract_elements ("<" ++ name ++ rs ++ "/>" ++ rest) name
  = parse_attrs (strip rs) :: extract_elements rest name.
Proof.
  intros S N. unfold extract_elements. rewrite !findall_groups.
  unfold finditer. pose proof (match_tag name rs rest S N) as M.
  rewrite <- tag_app in M |- *.
  now rewrite (scan_match _ ("<" ++ name ++ rs ++ "/>") _ _ 0 0 eq_refl M).
Qed.

Lemma Forall2_map_in {A B : Type} (P : A -> B -> Prop) (f : A -> B)
      (l : list A) :
  (forall a, In a l -> P a (f a)) -> Forall2 P l (map f l).
Proof.
  induction l as [|a l IH]; intros H; cbn [map]; constructor.
  - apply H. now left.
  - apply IH. intros b I. apply H. now right.
Qed.
End WholeDocuments.

(** ** The claims on the extractor *)

(** C6, as stated, fails: a self-closing tag whose name is followed at
    once by its end, and a tag with a [>] inside an attribute value, are
    self-closing tags of the name that the extractor does not return. *)
Lemma self_closing_tags_not_counted :
  let bare := [Elem (mkElement "Trade" "")] in
  let angled := [Elem (mkElement "Trade" (dq " a='x>y' "))] in
  (Forall (fun g => self_closing_segment g = true) bare
   /\ render bare = "<Trade/>"
   /\ count_tags "Trade" bare = 1
   /\ List.length (extract_elements (render bare) "Trade") = 0)
  /\ (Forall (fun g => self_closing_segment g = true) angled
      /\ render angled = dq "<Trade a='x>y' />"
      /\ count_tags "Trade" angled = 1
      /\ List.length (extract_elements (render angled) "Trade") = 0).
Proof.
  cbv zeta. split; repeat split; try (vm_compute; reflexivity);
    repeat constructor.
Qed.

(** C6, amended. For a requested name free of pattern syntax, the
    extractor returns the empty sequence on the empty document. For a
    requested name that is moreover free of white space and of [>], on
    a document made of well-formed self-closing elements, possibly
    separated by text without [<], in which each element of the
    requested name has white space after the name and no [>] before
    the end of its tag, the number of mappings returned is the number
    of elements of that name; nothing more is asked of the elements of
    the other names. *)
Theorem extractor_count :
  (forall name, plain_name name = true -> extract_elements "" name = [])
  /\ (forall name doc,
        requestable name = true ->
        Forall (fun g => well_formed_for name g = true) doc ->
        List.length (extract_elements (render doc) name) = count_tags name doc).
Proof.
  split; [intros name _; apply extract_empty|].
  intros name doc Hn Hdoc.
  rewrite (extract_well_formed name doc Hn Hdoc), length_map. reflexivity.
Qed.

Lemma extractor_count_witness :
  let doc := [Elem (mkElement "Other" "");
              Elem (mkElement "Trade" (dq " id='1' qty='10' "));
              Text newline;
              Elem (mkElement "TradeConfirm" (dq " id='7'"));
              Elem (mkElement "Order" (dq " note='a>b' "));
              Elem (mkElement "Trade" " ")] in
  plain_name "Trade" = true
  /\ extract_elements "" "Trade" = []
  /\ requestable "Trade" = true
  /\ Forall (fun g => well_formed_for "Trade" g = true) doc
  /\ List.length (extract_elements (render doc) "Trade") = count_tags "Trade" doc.
Proof.
  cbv zeta.
  assert (D : Forall (fun g => well_formed_for "Trade" g = true)
                [Elem (mkElement "Other" "");
                 Elem (mkElement "Trade" (dq " id='1' qty='10' "));
                 Text newline;
                 Elem (mkElement "TradeConfirm" (dq " id='7'"));
                 Elem (mkElement "Order" (dq " note='a>b' "));
                 Elem (mkElement "Trade" " ")]).
  { repeat (constructor; [vm_compute; reflexivity|]). constructor. }
  split; [reflexivity|].
  split; [exact (proj1 extractor_count "Trade" eq_refl)|].
  split; [reflexivity|]. split; [exact D|].
  exact (proj2 extractor_count "Trade" _ eq_refl D).
Defined.

(** Why the requested name is to be free of white space and of [>]:
    with a space in it the name takes in the start of an attribute text,
    and with the two closing characters in it the name takes in the end
    of a tag; in both documents no element has the requested name, and
    one mapping is returned. *)
Example requested_name_restrictions :
  let spaced_name := [Elem (mkElement "Trade" " a ")] in
  let closing_name := [Elem (mkElement "a" ""); Text " />"] in
  (plain_name "Trade a" = true
   /\ Forall (fun g => well_formed_for "Trade a" g = true) spaced_name
   /\ count_tags "Trade a" spaced_name = 0
   /\ List.length (extract_elements (render spaced_name) "Trade a") = 1)
  /\ (plain_name "a/>" = true
      /\ Forall (fun g => well_formed_for "a/>" g = true) closing_name
      /\ count_tags "a/>" closing_name = 0
      /\ List.length (extract_elements (render closing_name) "a/>") = 1).
Proof.
  cbv zeta. split; repeat split; try (vm_compute; reflexivity);
    repeat (constructor; [vm_compute; reflexivity|]); constructor.
Qed.

(** C7, as stated, fails: the tag without attributes whose name is
    followed at once by its end is not returned; and a tag without
    attributes that stands inside a tag left open before it is taken
    for a part of that tag. *)
Lemma attributeless_tag_missed :
  let e := mkElement "Trade" "" in
  let inner := mkElement "Trade" " " in
  let doc := (dq "<Trade a='1' " ++ render_element inner)%string in
  (self_closing e = true
   /\ el_rest e = ""
   /\ render_element e = "<Trade/>"
   /\ extract_elements (render_element e) "Trade" = [])
  /\ (self_closing inner = true
      /\ render_element inner = "<Trade />"
      /\ doc = dq "<Trade a='1' <Trade />"
      /\ extract_elements doc "Trade" = [[("a", "1")]]).
Proof. cbv zeta. repeat split; vm_compute; reflexivity. Qed.

(** C7, amended. For a requested name free of pattern syntax and of
    [>], in any document: a tag of the requested name that holds only
    white space, at least one character of it, between the name and the
    end of the tag, and that stands behind a text in which no tag is
    left open, is returned as the empty mapping, at its place: behind
    the mappings of the text before it and before the mappings of the
    text after it. *)
Theorem attributeless_element_included (name pre gap post : string) :
  plain_name name = true ->
  str_all not_gt name = true ->
  tags_closed pre = true ->
  truthy gap = true ->
  str_all is_space gap = true ->
  extract_elements (pre ++ "<" ++ name ++ gap ++ "/>" ++ post)%string name
  = extract_elements pre name ++ [] :: extract_elements post name.
Proof.
  intros _ Hn C T G.
  rewrite (extract_closed name pre _ Hn C). f_equal.
  rewrite extract_tag.
  - now rewrite (strip_all_space _ G).
  - destruct gap as [|c gap]; [discriminate|]. cbn [str_all] in G.
    now apply andb_prop in G as [G _].
  - revert G. apply str_all_impl. exact space_not_gt.
Qed.

Lemma attributeless_element_included_witness :
  let pre := (dq "<Report kind='x'><Trade id='1' />" ++ newline)%string in
  let post := dq "<Trade id='3' /></Report>" in
  plain_name "Trade" = true
  /\ str_all not_gt "Trade" = true
  /\ tags_closed pre = true
  /\ truthy "  " = true
  /\ str_all is_space "  " = true
  /\ extract_elements (pre ++ "<" ++ "Trade" ++ "  " ++ "/>" ++ post)%string
                      "Trade"
     = extract_elements pre "Trade" ++ [] :: extract_elements post "Trade"
  /\ extract_elements (pre ++ "<" ++ "Trade" ++ "  " ++ "/>" ++ post)%string
                      "Trade"
     = [[("id", "1")]; []; [("id", "3")]].
Proof.
  cbv zeta. do 5 (split; [vm_compute; reflexivity|]).
  split; [|vm_compute; reflexivity].
  exact (attributeless_element_included "Trade"
           (dq "<Report kind='x'><Trade id='1' />" ++ newline)%string "  "
           (dq "<Trade id='3' /></Report>")
           eq_refl eq_refl eq_refl eq_refl eq_refl).
Defined.

(** Why the requested name is to be free of [>]: a name that holds the
    two closing characters can start a match in a text that leaves no
    tag open, and the match runs on into the tag behind it. *)
Example closing_characters_in_name :
  let pre := dq "<a/> x='1' " in
  plain_name "a/>" = true
  /\ tags_closed pre = true
  /\ extract_elements pre "a/>" = []
  /\ extract_elements (pre ++ "<" ++ "a/>" ++ " " ++ "/>")%string "a/>"
     = [[("x", "1")]].
Proof. cbv zeta. repeat split; vm_compute; reflexivity. Qed.

(** C9. The mappings the extractor returns are, one for one and in
    order, those of the matches of the pattern; the mapping of a match
    holds each attribute name once, with the value of the last
    attribute of that name in the text the match captures, so a name
    written several times in an occurrence keeps its last value; and,
    whatever the statistics before, the occurrence moves the present
    count and the non-empty count of any attribute by at most one. For
    a requested name free of pattern syntax the match is the occurrence
    in the document: [<], the name, white space, the captured text,
    white space and the end of the tag. *)
Theorem duplicate_attribute_last_wins (xml_content element_name : string) :
  let occurrences := finditer (element_pattern element_name) xml_content in
  Forall2
    (fun m d =>
       NoDup (keys d)
       /\ (forall name,
             dict_get name d
             = last_attr name (finditer attr_pattern (group m 1)))
       /\ forall field fs,
            let before := dd_get field fs in
            let after := dd_get field (count_element fs d) in
            (st_present before <= st_present after <= st_present before + 1)%Z
            /\ (st_non_empty before <= st_non_empty after
                <= st_non_empty before + 1)%Z)
    occurrences (extract_elements xml_content element_name)
  /\ (plain_name element_name = true ->
      forall m, In m occurrences ->
        exists gap tail rest,
          slice_from (m_start m) xml_content = (m_text m ++ rest)%string
          /\ m_text m
             = ("<" ++ element_name ++ gap ++ group m 1 ++ tail ++ "/>")%string
          /\ starts_with_space gap = true
          /\ str_all is_space gap = true
          /\ str_all is_space tail = true).
Proof.
  cbv zeta. split.
  - unfold extract_elements, findall. rewrite map_map.
    apply Forall2_map_in. intros m _.
    split; [apply parse_attrs_wf|].
    split; [intros name; apply parse_attrs_get|].
    intros field fs. apply count_element_step, parse_attrs_wf.
  - intros _ m I. apply finditer_start in I.
    apply element_match_shape in I
      as (gap & body & tail & rest & E & T & G & Sg & Ag & _ & At).
    exists gap, tail, rest. unfold group. rewrite G. cbn [pred nth].
    now repeat split.
Qed.

Lemma duplicate_attribute_last_wins_witness :
  let doc := dq "<Trade a='1' b='' a='2' /><Trade a='3' />" in
  let occurrences := finditer (element_pattern "Trade") doc in
  plain_name "Trade" = true
  /\ extract_elements doc "Trade" = [[("a", "2"); ("b", "")]; [("a", "3")]]
  /\ Forall2
       (fun m d =>
          NoDup (keys d)
          /\ (forall name,
                dict_get name d
                = last_attr name (finditer attr_pattern (group m 1)))
          /\ forall field fs,
               let before := dd_get field fs in
               let after := dd_get field (count_element fs d) in
               (st_present before <= st_present after
                <= st_present before + 1)%Z
               /\ (st_non_empty before <= st_non_empty after
                   <= st_non_empty before + 1)%Z)
       occurrences (extract_elements doc "Trade")
  /\ (forall m, In m occurrences ->
        exists gap tail rest,
          slice_from (m_start m) doc = (m_text m ++ rest)%string
          /\ m_text m
             = ("<" ++ "Trade" ++ gap ++ group m 1 ++ tail ++ "/>")%string
          /\ starts_with_space gap = true
          /\ str_all is_space gap = true
          /\ str_all is_space tail = true).
Proof.
  cbv zeta. split; [reflexivity|]. split; [vm_compute; reflexivity|].
  split.
  - exact (proj1 (duplicate_attribute_last_wins
                    (dq "<Trade a='1' b='' a='2' /><Trade a='3' />") "Trade")).
  - exact (proj2 (duplicate_attribute_last_wins
                    (dq "<Trade a='1' b='' a='2' /><Trade a='3' />") "Trade")
                 eq_refl).
Defined.




(** The extending tag of the example is not returned. *)
Example trade_confirm_not_returned :
  extract_elements (dq "<TradeConfirm a='1' /><Trade b='2' />") "Trade"
  = [[("b", "2")]].
Proof. vm_compute. reflexivity. Qed.
